(** * The chat gateway of api/index.js

    A shallow embedding of the Express handlers of [api/index.js] and of the
    record store they talk to, with the properties of the conversation turn
    protocol proved about it.

    The three outside services (identity check, relational store, text
    completion) are not part of the repository.  The store is modelled as two
    tables of rows; everything the outside decides during one request (which
    calls fail, which ids the store assigns, what the clock reads, what the
    completion service answers) is collected in a [world] the handlers are
    run against, and every theorem quantifies over it. *)

From Stdlib Require Import List String Ascii NArith ZArith Bool Arith Lia.
From Stdlib Require Import Permutation Sorted Orders Mergesort.
Import ListNotations.

Set Implicit Arguments.

(** ** JavaScript strings and values *)

(** A JavaScript string is a sequence of UTF-16 code units; [length],
    [substring] and concatenation all count code units. *)
Definition jstring := list N.

(** A string literal of the source. *)
Definition lit (s : string) : jstring :=
  map N_of_ascii (list_ascii_of_string s).

(** The line feed written [\n] in the source. *)
Definition nl : jstring := [10%N].

Fixpoint jstring_eqb (a b : jstring) : bool :=
  match a, b with
  | [], [] => true
  | x :: a', y :: b' => N.eqb x y && jstring_eqb a' b'
  | _, _ => false
  end.

(** [s.startsWith(prefix)] *)
Fixpoint startsWith (s prefix : jstring) {struct prefix} : bool :=
  match prefix, s with
  | [], _ => true
  | p :: prefix', c :: s' => N.eqb p c && startsWith s' prefix'
  | _ :: _, [] => false
  end.

(** [s.includes(sub)] *)
Fixpoint includes (s sub : jstring) : bool :=
  match s with
  | [] => startsWith [] sub
  | _ :: s' => startsWith s sub || includes s' sub
  end.

(** [s.substring(from, to)] for non-negative arguments: both are clamped to
    the length and swapped when [from] exceeds [to]. *)
Definition substring (from to : nat) (s : jstring) : jstring :=
  let lo := Nat.min from to in
  let hi := Nat.max from to in
  firstn (hi - lo) (skipn lo s).

(** [s.substring(from)] *)
Definition substring_from (from : nat) (s : jstring) : jstring :=
  skipn from s.

(** [parts.join(sep)] *)
Fixpoint join (sep : jstring) (parts : list jstring) : jstring :=
  match parts with
  | [] => []
  | [x] => x
  | x :: rest => x ++ sep ++ join sep rest
  end.

(** An index argument of [Array.prototype.slice]: a negative one counts from
    the end, and the result is clamped to the array. *)
Definition slice_index (len : nat) (k : Z) : nat :=
  if (k <? 0)%Z then Z.to_nat (Z.max (Z.of_nat len + k) 0)
  else Nat.min (Z.to_nat k) len.

(** [arr.slice(from, to)] *)
Definition slice {A : Type} (from to : Z) (arr : list A) : list A :=
  let lo := slice_index (List.length arr) from in
  let hi := slice_index (List.length arr) to in
  firstn (hi - lo) (skipn lo arr).

(** [arr.push(x)] *)
Definition push {A : Type} (arr : list A) (x : A) : list A := arr ++ [x].

(** A value of the parsed request body.  The handler looks at a value that is
    not a string only through its truthiness and through the text [String()]
    gives for it (numbers, booleans, arrays, objects), so those two are what
    [JOther] carries. *)
Inductive jsval : Type :=
| JUndefined
| JNull
| JStr (s : jstring)
| JOther (truth : bool) (text : jstring).

(** The truthiness tested by [if (v)] and [!v]. *)
Definition truthy (v : jsval) : bool :=
  match v with
  | JUndefined | JNull => false
  | JStr s => match s with [] => false | _ :: _ => true end
  | JOther t _ => t
  end.

(** [String(v)], as a template literal builds it. *)
Definition to_text (v : jsval) : jstring :=
  match v with
  | JUndefined => lit "undefined"
  | JNull => lit "null"
  | JStr s => s
  | JOther _ text => text
  end.

(** ** The record store *)

Module Conversation.
Record t : Type := mk {
  id : jstring;
  user_id : jstring;
  title : jstring;
  created_at : N;
  updated_at : N
}.
End Conversation.

Module Message.
Record t : Type := mk {
  id : jstring;
  conversation_id : jstring;
  role : jstring;
  content : jstring;
  created_at : N
}.
End Message.

(** The two tables, rows in insertion order. *)
Record store : Type := mkStore {
  conversations : list Conversation.t;
  messages : list Message.t
}.

(** What a store or completion call hands back: [{ data, error }]. *)
Inductive reply (A : Type) : Type :=
| Data (data : A)
| Error (message : jstring).

Arguments Data {A} data.
Arguments Error {A} message.

(** [order('created_at', { ascending: true })]: rows sorted by timestamp. *)
Module CreatedAtOrder <: TotalLeBool.
Definition t := Message.t.
Definition leb (a b : t) : bool :=
  (Message.created_at a <=? Message.created_at b)%N.
Lemma leb_total : forall a b, leb a b = true \/ leb b a = true.
Proof.
  intros a b. unfold leb.
  destruct (N.leb_spec (Message.created_at a) (Message.created_at b)) as [H|H].
  - now left.
  - right. apply N.leb_le. lia.
Qed.
End CreatedAtOrder.

Module ByCreatedAt := Sort CreatedAtOrder.

Definition order_by_created_at : list Message.t -> list Message.t :=
  ByCreatedAt.sort.

(** The rows of a conversation, in table order. *)
Definition messages_of (db : store) (conversationId : jstring) : list Message.t :=
  filter (fun m => jstring_eqb (Message.conversation_id m) conversationId)
         (messages db).

(** [from('conversations').select('*').eq('id', ..).eq('user_id', ..).single()]:
    the one matching row, an error when none or several match. *)
Definition select_conversation (fault : option jstring) (db : store)
    (id userId : jstring) : reply Conversation.t :=
  match fault with
  | Some e => Error e
  | None =>
      match filter (fun c => jstring_eqb (Conversation.id c) id
                             && jstring_eqb (Conversation.user_id c) userId)
                   (conversations db) with
      | [c] => Data c
      | _ => Error (lit "JSON object requested, multiple (or no) rows returned")
      end
  end.

(** [from('messages').select('*').eq('conversation_id', ..)
      .order('created_at', { ascending: true }).limit(limit)] *)
Definition select_messages (fault : option jstring) (db : store)
    (conversationId : jstring) (limit : nat) : reply (list Message.t) :=
  match fault with
  | Some e => Error e
  | None => Data (firstn limit (order_by_created_at (messages_of db conversationId)))
  end.

(** What the outside decides about one insert: whether the call fails, and
    the id the store assigns to the new row. *)
Record insertion : Type := mkInsertion {
  fault : option jstring;
  assigned_id : jstring
}.

Definition duplicate_key : jstring :=
  lit "duplicate key value violates unique constraint".

(** [from('conversations').insert({..}).select().single()]; the id is the
    table's primary key. *)
Definition insert_conversation (o : insertion) (db : store)
    (userId title : jstring) (created updated : N)
    : reply Conversation.t * store :=
  match fault o with
  | Some e => (Error e, db)
  | None =>
      if existsb (fun c => jstring_eqb (Conversation.id c) (assigned_id o))
                 (conversations db)
      then (Error duplicate_key, db)
      else
        let row := Conversation.mk (assigned_id o) userId title created updated in
        (Data row, mkStore (conversations db ++ [row]) (messages db))
  end.

(** [from('messages').insert({..}).select().single()] *)
Definition insert_message (o : insertion) (db : store)
    (conversationId role content : jstring) (created : N)
    : reply Message.t * store :=
  match fault o with
  | Some e => (Error e, db)
  | None =>
      if existsb (fun m => jstring_eqb (Message.id m) (assigned_id o))
                 (messages db)
      then (Error duplicate_key, db)
      else
        let row := Message.mk (assigned_id o) conversationId role content created in
        (Data row, mkStore (conversations db) (messages db ++ [row]))
  end.

Definition set_title (title : jstring) (c : Conversation.t) : Conversation.t :=
  Conversation.mk (Conversation.id c) (Conversation.user_id c) title
                  (Conversation.created_at c) (Conversation.updated_at c).

(** [from('conversations').update({ title }).eq('id', ..)]: every row with
    that id gets the title; the handler sends no other column. *)
Definition update_title (fault : option jstring) (db : store)
    (id title : jstring) : reply unit * store :=
  match fault with
  | Some e => (Error e, db)
  | None =>
      (Data tt,
       mkStore (map (fun c => if jstring_eqb (Conversation.id c) id
                              then set_title title c else c)
                    (conversations db))
               (messages db))
  end.

(** ** Running a handler *)

(** What a request does to the outside, in the order it happens: the rows
    the store committed, and the calls made to the completion service. *)
Inductive event : Type :=
| InsertedConversation (row : Conversation.t)
| InsertedMessage (row : Message.t)
| UpdatedTitle (id title : jstring)
| GenerateContent (model text : jstring).

Record state : Type := mkState {
  db : store;
  log : list event
}.

(** A JavaScript computation either returns or throws; an error is
    represented by its [message].  What it did to the store before throwing
    stays done. *)
Inductive result (A : Type) : Type :=
| Returned (value : A)
| Thrown (message : jstring).

Arguments Returned {A} value.
Arguments Thrown {A} message.

Definition M (A : Type) : Type := state -> result A * state.

Definition ret {A : Type} (a : A) : M A := fun s => (Returned a, s).

Definition throw {A : Type} (e : jstring) : M A := fun s => (Thrown e, s).

Definition bind {A B : Type} (m : M A) (k : A -> M B) : M B :=
  fun s =>
    match m s with
    | (Returned a, s') => k a s'
    | (Thrown e, s') => (Thrown e, s')
    end.

(** [try { m } catch (error) { handler }] *)
Definition try_catch {A : Type} (m : M A) (handler : jstring -> M A) : M A :=
  fun s =>
    match m s with
    | (Returned a, s') => (Returned a, s')
    | (Thrown e, s') => handler e s'
    end.

Notation "x <- m ;; k" := (bind m (fun x => k))
  (at level 61, m at next level, right associativity).

(** A read of the store. *)
Definition query {A : Type} (f : store -> reply A) : M (reply A) :=
  fun s => (Returned (f (db s)), s).

(** A write to the store; [ev] is what gets recorded when it is committed. *)
Definition mutate {A : Type} (f : store -> reply A * store) (ev : A -> event)
    : M (reply A) :=
  fun s =>
    match f (db s) with
    | (Data a, db') => (Returned (Data a), mkState db' (log s ++ [ev a]))
    | (Error e, db') => (Returned (Error e), mkState db' (log s))
    end.

(** ** The outside world during one request *)

(** [supabase.auth.getUser(token)]: a user, an error (or no user), or an
    exception. *)
Inductive auth_reply : Type :=
| AuthUser (id : jstring)
| AuthError
| AuthThrows.

Record world : Type := mkWorld {
  getUser : jstring -> auth_reply;
  (** the select of [getOrCreateConversation] *)
  find_fault : option jstring;
  (** the insert of [getOrCreateConversation] and its two clock readings *)
  create : insertion;
  create_clock : N * N;
  (** the select of [getConversationHistory] *)
  history_fault : option jstring;
  (** the two calls of [saveMessage], each with its clock reading *)
  save_user : insertion;
  save_user_clock : N;
  save_assistant : insertion;
  save_assistant_clock : N;
  (** the completion service: model id and text to an answer *)
  completion : jstring -> jstring -> reply jstring;
  (** the title update *)
  retitle_fault : option jstring
}.

(** ** Responses *)

Inductive json : Type :=
| ErrorJson (error : jstring) (details : option jstring)
| ChatJson (content conversation_id : jstring) (model_used : jsval)
| MessagesJson (rows : list Message.t).

Record response : Type := mkResponse {
  status : nat;
  body : json
}.

(** ** The handlers of api/index.js *)

(** The id of the model instance every completion goes to (line 43). *)
Definition model : jstring := lit "gemini-2.0-flash-exp".

(** [verifyAuth]: the header must read [Bearer <token>] and the identity
    service must know the token. *)
Definition verifyAuth (w : world) (authorization : option jstring)
    (next : jstring -> M response) : M response :=
  match authorization with
  | None =>
      ret (mkResponse 401 (ErrorJson (lit "Missing or invalid authorization header") None))
  | Some authHeader =>
      if negb (truthy (JStr authHeader))
         || negb (startsWith authHeader (lit "Bearer "))
      then ret (mkResponse 401 (ErrorJson (lit "Missing or invalid authorization header") None))
      else
        let token := substring_from 7 authHeader in
        match getUser w token with
        | AuthUser user => next user
        | AuthError =>
            ret (mkResponse 401 (ErrorJson (lit "Invalid or expired token") None))
        | AuthThrows =>
            ret (mkResponse 401 (ErrorJson (lit "Authentication failed") None))
        end
  end.

(** [getOrCreateConversation(userId, conversationId, title)] *)
Definition getOrCreateConversation (w : world) (userId : jstring)
    (conversationId : jsval) (title : jstring) : M Conversation.t :=
  try_catch
    (let insert :=
       r <- mutate (fun d => insert_conversation (create w) d userId title
                               (fst (create_clock w)) (snd (create_clock w)))
                   InsertedConversation ;;
       match r with
       | Error e => throw e
       | Data data => ret data
       end in
     if truthy conversationId then
       r <- query (fun d => select_conversation (find_fault w) d
                              (to_text conversationId) userId) ;;
       match r with
       | Data data => ret data
       | Error _ => insert
       end
     else insert)
    (fun error => throw error).

(** [getConversationHistory(conversationId, limit)] *)
Definition getConversationHistory (w : world) (conversationId : jstring)
    (limit : nat) : M (list Message.t) :=
  try_catch
    (r <- query (fun d => select_messages (history_fault w) d conversationId limit) ;;
     match r with
     | Error e => throw e
     | Data data => ret data
     end)
    (fun error => throw error).

(** [saveMessage(conversationId, role, content)]; [o] and [now] are what the
    store and the clock do at this call. *)
Definition saveMessage (o : insertion) (now : N)
    (conversationId role content : jstring) : M Message.t :=
  try_catch
    (r <- mutate (fun d => insert_message o d conversationId role content now)
                 InsertedMessage ;;
     match r with
     | Error e => throw e
     | Data data => ret data
     end)
    (fun error => throw error).

(** [model.generateContent(text)] followed by [response.text()]. *)
Definition generateContent (w : world) (text : jstring) : M jstring :=
  fun s =>
    let s' := mkState (db s) (log s ++ [GenerateContent model text]) in
    match completion w model text with
    | Data answer => (Returned answer, s')
    | Error e => (Thrown e, s')
    end.

(** Lines 234-243: the prior turns as lines of text, then the new prompt. *)
Definition contextMessages (history : list Message.t) (prompt : jstring)
    : list jstring :=
  push
    (fold_left
       (fun acc msg =>
          if jstring_eqb (Message.role msg) (lit "user")
          then push acc (lit "User: " ++ Message.content msg)
          else if jstring_eqb (Message.role msg) (lit "assistant")
          then push acc (lit "Assistant: " ++ Message.content msg)
          else acc)
       history [])
    (lit "User: " ++ prompt).

(** Lines 245-251: the text sent to the completion service. *)
Definition fullContext (history : list Message.t) (prompt : jstring) : jstring :=
  if 0 <? List.length history then
    let previousMessages := join nl (slice 0 (-1) (contextMessages history prompt)) in
    lit "Previous conversation:" ++ nl ++ previousMessages ++ nl ++ nl
      ++ lit "Current message:" ++ nl ++ prompt ++ nl ++ nl
      ++ lit "Please respond remembering our previous conversation and maintain context."
  else prompt.

(** The body of a chat request, as parsed; an absent field is [JUndefined]. *)
Record chat_request : Type := mkChatRequest {
  prompt : jsval;
  conversation_id : jsval;
  model_name : jsval
}.

(** The handler of [POST /api/chat], behind [verifyAuth]. *)
Definition chat (w : world) (user : jstring) (req : chat_request) : M response :=
  try_catch
    (let model_name :=
       match model_name req with
       | JUndefined => JStr (lit "gemini-2.0-flash-exp")
       | v => v
       end in
     if negb (truthy (prompt req)) then
       ret (mkResponse 400 (ErrorJson (lit "Missing required parameter: prompt") None))
     else
       match prompt req with
       | JStr prompt =>
           conversation <- getOrCreateConversation w user (conversation_id req)
                             (substring 0 50 prompt ++ lit "...") ;;
           history <- getConversationHistory w (Conversation.id conversation) 20 ;;
           _ <- saveMessage (save_user w) (save_user_clock w)
                  (Conversation.id conversation) (lit "user") prompt ;;
           aiResponse <- generateContent w (fullContext history prompt) ;;
           _ <- saveMessage (save_assistant w) (save_assistant_clock w)
                  (Conversation.id conversation) (lit "assistant") aiResponse ;;
           _ <- (if List.length history =? 0 then
                   mutate (fun d => update_title (retitle_fault w) d
                                      (Conversation.id conversation)
                                      (substring 0 50 prompt
                                       ++ (if 50 <? List.length prompt
                                           then lit "..." else [])))
                          (fun _ => UpdatedTitle (Conversation.id conversation)
                                      (substring 0 50 prompt
                                       ++ (if 50 <? List.length prompt
                                           then lit "..." else [])))
                 else ret (Data tt)) ;;
           ret (mkResponse 200
                  (ChatJson aiResponse (Conversation.id conversation) model_name))
       | _ =>
           (* line 223: a prompt that is not a string has no [substring] *)
           throw (lit "prompt.substring is not a function")
       end)
    (fun error =>
       if truthy (JStr error) && includes error (lit "API_KEY") then
         ret (mkResponse 500
                (ErrorJson (lit "Invalid or missing Gemini API key. Please check your configuration.") None))
       else
         ret (mkResponse 500
                (ErrorJson (lit "Failed to generate response. Please try again.")
                           (Some error)))).

(** [POST /api/chat] *)
Definition post_api_chat (w : world) (authorization : option jstring)
    (req : chat_request) : M response :=
  verifyAuth w authorization (fun user => chat w user req).

(** [GET /api/conversations/:id/messages] *)
Definition get_api_conversation_messages (w : world)
    (authorization : option jstring) (id : jstring) : M response :=
  verifyAuth w authorization
    (fun _ =>
       try_catch
         (messages <- getConversationHistory w id 20 ;;
          ret (mkResponse 200 (MessagesJson messages)))
         (fun _ =>
            ret (mkResponse 500 (ErrorJson (lit "Failed to fetch messages") None)))).

(** ** The rendering of §4.4, in the words of the specification *)

(** One prior message as a line: ["User: <content>"] for role [user],
    ["Assistant: <content>"] for role [assistant], nothing for any other
    role. *)
Definition spec_rendered_line (m : Message.t) : option jstring :=
  if jstring_eqb (Message.role m) (lit "user")
  then Some (lit "User: " ++ Message.content m)
  else if jstring_eqb (Message.role m) (lit "assistant")
  then Some (lit "Assistant: " ++ Message.content m)
  else None.

Fixpoint spec_rendered_turns (history : list Message.t) : list jstring :=
  match history with
  | [] => []
  | m :: rest =>
      match spec_rendered_line m with
      | Some line => line :: spec_rendered_turns rest
      | None => spec_rendered_turns rest
      end
  end.

(** The text of §4.4 around the rendered turns and the prompt. *)
Definition spec_context_text (turns : list jstring) (prompt : jstring) : jstring :=
  lit "Previous conversation:" ++ nl ++ join nl turns ++ nl ++ nl
    ++ lit "Current message:" ++ nl ++ prompt ++ nl ++ nl
    ++ lit "Please respond remembering our previous conversation and maintain context.".

(** ** Requests, stores and worlds used as concrete instances *)

Definition bearer (token : jstring) : option jstring :=
  Some (lit "Bearer " ++ token).

(** The caller is authenticated as [user]: a well-formed bearer header whose
    token the identity service resolves. *)
Definition authenticated (w : world) (authorization : option jstring)
    (user : jstring) : Prop :=
  exists token, authorization = bearer token /\ getUser w token = AuthUser user.

(** A request starts on the store as it is, with nothing done yet. *)
Definition fresh (st : store) : state := mkState st [].

Definition alice : jstring := lit "alice".
Definition bob : jstring := lit "bob".

(** An identity service that knows two tokens. *)
Definition two_users (token : jstring) : auth_reply :=
  if jstring_eqb token (lit "token-a") then AuthUser alice
  else if jstring_eqb token (lit "token-b") then AuthUser bob
  else AuthError.

(** A world in which every call succeeds and the completion service answers
    [answer]. *)
Definition calm_world (answer : jstring) : world :=
  mkWorld two_users None
          (mkInsertion None (lit "c-new")) (100%N, 100%N)
          None
          (mkInsertion None (lit "m-new-1")) 101%N
          (mkInsertion None (lit "m-new-2")) 102%N
          (fun _ _ => Data answer)
          None.

(** The same world with a completion service that fails. *)
Definition stormy_world (failure : jstring) : world :=
  mkWorld two_users None
          (mkInsertion None (lit "c-new")) (100%N, 100%N)
          None
          (mkInsertion None (lit "m-new-1")) 101%N
          (mkInsertion None (lit "m-new-2")) 102%N
          (fun _ _ => Error failure)
          None.

Definition empty_store : store := mkStore [] [].

Definition hi_hello : list Message.t :=
  [ Message.mk (lit "m1") (lit "c1") (lit "user") (lit "hi") 10%N;
    Message.mk (lit "m2") (lit "c1") (lit "assistant") (lit "hello") 11%N ].

(** Alice's conversation [c1] with one exchange in it. *)
Definition one_exchange : store :=
  mkStore [Conversation.mk (lit "c1") alice (lit "hi...") 9%N 9%N] hi_hello.

(** Alice's conversation [c1], created but still without a message. *)
Definition untouched_conversation : store :=
  mkStore [Conversation.mk (lit "c1") alice (lit "Old title") 9%N 9%N] [].

(** [n] messages of conversation [c1], the k-th written at time [k]. *)
Fixpoint numbered_messages (n : nat) : list Message.t :=
  match n with
  | O => []
  | S k =>
      numbered_messages k
        ++ [Message.mk (lit "m" ++ repeat 120%N k) (lit "c1") (lit "user")
                       (lit "turn") (N.of_nat k)]
  end.

Definition long_conversation : store :=
  mkStore [Conversation.mk (lit "c1") alice (lit "turn") 0%N 0%N]
          (numbered_messages 21).

(** Rows in ascending order of their timestamps. *)
Definition oldest_first (rows : list Message.t) : Prop :=
  StronglySorted
    (fun a b => (Message.created_at a <= Message.created_at b)%N) rows.

(** Every stored message belongs to a stored conversation. *)
Definition referential_integrity (st : store) : bool :=
  forallb
    (fun m => existsb (fun c => jstring_eqb (Conversation.id c)
                                            (Message.conversation_id m))
                      (conversations st))
    (messages st).

(** The title the handler writes after a first turn (line 265). *)
Definition spec_first_turn_title (prompt : jstring) : jstring :=
  firstn 50 prompt ++ (if 50 <? List.length prompt then lit "..." else []).

(** ** The routes beside the chat turn *)

(** [order('updated_at', { ascending: false })]: most recently updated
    first. *)
Definition updated_at_geb (a b : Conversation.t) : bool :=
  (Conversation.updated_at b <=? Conversation.updated_at a)%N.

Definition updated_at_geb_total (a b : Conversation.t) :
  updated_at_geb a b = true \/ updated_at_geb b a = true :=
  match N.leb_spec (Conversation.updated_at b) (Conversation.updated_at a) with
  | BoolSpecT _ H => or_introl (proj2 (N.leb_le _ _) H)
  | BoolSpecF _ H => or_intror (proj2 (N.leb_le _ _) (N.lt_le_incl _ _ H))
  end.

Module UpdatedAtOrder <: TotalLeBool.
Definition t := Conversation.t.
Definition leb := updated_at_geb.
Definition leb_total := updated_at_geb_total.
End UpdatedAtOrder.

Module ByUpdatedAt := Sort UpdatedAtOrder.

Definition order_by_updated_at_desc : list Conversation.t -> list Conversation.t :=
  ByUpdatedAt.sort.

(** The rows of a user, in table order. *)
Definition conversations_of (db : store) (userId : jstring) : list Conversation.t :=
  filter (fun c => jstring_eqb (Conversation.user_id c) userId) (conversations db).

(** [from('conversations').select('*').eq('user_id', ..)
      .order('updated_at', { ascending: false })] *)
Definition select_conversations (fault : option jstring) (db : store)
    (userId : jstring) : reply (list Conversation.t) :=
  match fault with
  | Some e => Error e
  | None => Data (order_by_updated_at_desc (conversations_of db userId))
  end.

(** [from('conversations').delete().eq('id', ..).eq('user_id', ..)]: the rows
    matching both filters go.  Whether their messages go with them is the
    schema's choice, not the handler's: [cascade] says whether the store
    deletes the messages of a deleted conversation (a store that refuses the
    delete instead is a [fault]). *)
Definition delete_conversation (fault : option jstring) (cascade : bool)
    (db : store) (id userId : jstring) : reply unit * store :=
  match fault with
  | Some e => (Error e, db)
  | None =>
      let doomed := fun c => jstring_eqb (Conversation.id c) id
                             && jstring_eqb (Conversation.user_id c) userId in
      let removed := filter doomed (conversations db) in
      (Data tt,
       mkStore (filter (fun c => negb (doomed c)) (conversations db))
               (if cascade
                then filter
                       (fun m => negb (existsb
                                         (fun c => jstring_eqb (Conversation.id c)
                                                     (Message.conversation_id m))
                                         removed))
                       (messages db)
                else messages db))
  end.

(** A write to the store that commits no row. *)
Definition modify {A : Type} (f : store -> reply A * store) : M (reply A) :=
  fun s => let (r, db') := f (db s) in (Returned r, mkState db' (log s)).

(** The bodies of all routes: those of the chat and messages routes, the
    list of conversations, and the [{ message }] of the delete route. *)
Inductive route_json : Type :=
| Json (j : json)
| ConversationsJson (rows : list Conversation.t)
| MessageJson (message : jstring).

Record route_response : Type := mkRoute {
  route_status : nat;
  route_body : route_json
}.

Definition widen (r : response) : route_response :=
  mkRoute (status r) (Json (body r)).

(** [verifyAuth] again, in front of a handler that answers with any of the
    bodies. *)
Definition verifyAuth_wide (w : world) (authorization : option jstring)
    (next : jstring -> M route_response) : M route_response :=
  match authorization with
  | None =>
      ret (mkRoute 401
             (Json (ErrorJson (lit "Missing or invalid authorization header") None)))
  | Some authHeader =>
      if negb (truthy (JStr authHeader))
         || negb (startsWith authHeader (lit "Bearer "))
      then ret (mkRoute 401
                  (Json (ErrorJson (lit "Missing or invalid authorization header")
                                   None)))
      else
        let token := substring_from 7 authHeader in
        match getUser w token with
        | AuthUser user => next user
        | AuthError =>
            ret (mkRoute 401 (Json (ErrorJson (lit "Invalid or expired token") None)))
        | AuthThrows =>
            ret (mkRoute 401 (Json (ErrorJson (lit "Authentication failed") None)))
        end
  end.

(** [GET /api/conversations]; [fault] is what the store does to its select. *)
Definition get_api_conversations (w : world) (fault : option jstring)
    (authorization : option jstring) : M route_response :=
  verifyAuth_wide w authorization
    (fun user =>
       try_catch
         (r <- query (fun d => select_conversations fault d user) ;;
          match r with
          | Error e => throw e
          | Data data => ret (mkRoute 200 (ConversationsJson data))
          end)
         (fun _ =>
            ret (mkRoute 500
                   (Json (ErrorJson (lit "Failed to fetch conversations") None))))).

(** [DELETE /api/conversations/:id]; [fault] and [cascade] are what the
    store does to its delete. *)
Definition delete_api_conversation (w : world) (fault : option jstring)
    (cascade : bool) (authorization : option jstring) (id : jstring)
    : M route_response :=
  verifyAuth_wide w authorization
    (fun user =>
       try_catch
         (r <- modify (fun d => delete_conversation fault cascade d id user) ;;
          match r with
          | Error e => throw e
          | Data _ =>
              ret (mkRoute 200 (MessageJson (lit "Conversation deleted successfully")))
          end)
         (fun _ =>
            ret (mkRoute 500
                   (Json (ErrorJson (lit "Failed to delete conversation") None))))).

(** The body the catch clause of the chat handler answers with
    (lines 279-288). *)
Definition chat_error_body (message : jstring) : json :=
  if truthy (JStr message) && includes message (lit "API_KEY")
  then ErrorJson (lit "Invalid or missing Gemini API key. Please check your configuration.") None
  else ErrorJson (lit "Failed to generate response. Please try again.") (Some message).

(** ** Store invariants *)

Definition unique_conversation_ids (st : store) : Prop :=
  NoDup (map Conversation.id (conversations st)).

Definition unique_message_ids (st : store) : Prop :=
  NoDup (map Message.id (messages st)).

(** A store as a relational backend keeps it: ids are keys, and every
    message belongs to a stored conversation. *)
Definition well_formed (st : store) : Prop :=
  referential_integrity st = true
  /\ unique_conversation_ids st
  /\ unique_message_ids st.

(** A Hoare triple for the handlers' monad: from a state satisfying [P],
    [m] either returns a value and a state satisfying [Q], or throws in a
    state satisfying [E]. *)
Definition triple {A : Type} (P : state -> Prop) (m : M A)
    (Q : A -> state -> Prop) (E : state -> Prop) : Prop :=
  forall s, P s ->
    match m s with
    | (Returned a, s') => Q a s'
    | (Thrown _, s') => E s'
    end.

(** What a chat request of [user] may have done to a store that was [st0]:
    appended messages, appended conversations, and left every conversation
    of the other users as it was. *)
Definition only_grows (user : jstring) (st0 st : store) : Prop :=
  (exists extra, messages st = messages st0 ++ extra)
  /\ (exists added,
         map Conversation.id (conversations st)
         = map Conversation.id (conversations st0) ++ added)
  /\ (forall c, In c (conversations st0) ->
                Conversation.user_id c <> user -> In c (conversations st)).

(** ** Strings and arrays *)

Lemma jstring_eqb_eq (a b : jstring) : jstring_eqb a b = true <-> a = b.
Proof.
  revert b. induction a as [|x a IH]; intros [|y b]; simpl; split; intro H;
    try reflexivity; try discriminate.
  - apply andb_true_iff in H. destruct H as [Hx Hab].
    apply N.eqb_eq in Hx. apply IH in Hab. now subst.
  - injection H as -> ->. apply andb_true_iff. split.
    + apply N.eqb_refl.
    + now apply IH.
Qed.

Lemma jstring_eqb_refl (a : jstring) : jstring_eqb a a = true.
Proof. now apply jstring_eqb_eq. Qed.

Lemma slice_all_but_last (A : Type) (l : list A) (x : A) :
  slice 0 (-1) (push l x) = l.
Proof.
  unfold slice, push, slice_index. rewrite length_app. simpl.
  replace (Z.to_nat (Z.max (Z.of_nat (List.length l + 1) + -1) 0))
    with (List.length l) by lia.
  rewrite Nat.sub_0_r, firstn_app, firstn_all, Nat.sub_diag. simpl.
  apply app_nil_r.
Qed.

Lemma substring_prefix (n : nat) (s : jstring) : substring 0 n s = firstn n s.
Proof. unfold substring. simpl. now rewrite Nat.sub_0_r. Qed.

(** ** The context assembler *)

Lemma rendering_loop (history : list Message.t) (acc : list jstring) :
  fold_left
    (fun acc msg =>
       if jstring_eqb (Message.role msg) (lit "user")
       then push acc (lit "User: " ++ Message.content msg)
       else if jstring_eqb (Message.role msg) (lit "assistant")
       then push acc (lit "Assistant: " ++ Message.content msg)
       else acc)
    history acc
  = acc ++ spec_rendered_turns history.
Proof.
  revert acc. induction history as [|m rest IH]; intro acc; simpl.
  - now rewrite app_nil_r.
  - rewrite IH. unfold spec_rendered_line, push.
    destruct (jstring_eqb (Message.role m) (lit "user")).
    + now rewrite <- app_assoc.
    + destruct (jstring_eqb (Message.role m) (lit "assistant")).
      * now rewrite <- app_assoc.
      * reflexivity.
Qed.

Lemma contextMessages_spec (history : list Message.t) (prompt : jstring) :
  contextMessages history prompt
  = push (spec_rendered_turns history) (lit "User: " ++ prompt).
Proof. unfold contextMessages. now rewrite rendering_loop. Qed.

(** C3: for a non-empty history the assembled text is the fixed frame of
    §4.4 around the prior turns, each rendered as ["User: <content>"] or
    ["Assistant: <content>"] by role (other roles dropped) and joined by
    newlines; for [user:"hi", assistant:"hello"] and prompt ["how are you"]
    it is exactly the text the specification quotes. *)
Theorem context_of_prior_turns :
  (forall (history : list Message.t) (prompt : jstring),
      history <> [] ->
      fullContext history prompt
      = lit "Previous conversation:" ++ nl
          ++ join nl (spec_rendered_turns history) ++ nl ++ nl
          ++ lit "Current message:" ++ nl ++ prompt ++ nl ++ nl
          ++ lit "Please respond remembering our previous conversation and maintain context.")
  /\ fullContext hi_hello (lit "how are you")
     = lit "Previous conversation:" ++ nl
         ++ lit "User: hi" ++ nl
         ++ lit "Assistant: hello" ++ nl ++ nl
         ++ lit "Current message:" ++ nl
         ++ lit "how are you" ++ nl ++ nl
         ++ lit "Please respond remembering our previous conversation and maintain context.".
Proof.
  split.
  - intros history prompt Hne. unfold fullContext.
    destruct history as [|m rest]; [contradiction|].
    cbn [List.length Nat.ltb Nat.leb].
    now rewrite contextMessages_spec, slice_all_but_last.
  - vm_compute. reflexivity.
Qed.

Lemma context_of_prior_turns_witness :
  hi_hello <> []
  /\ fullContext hi_hello (lit "how are you")
     = spec_context_text (spec_rendered_turns hi_hello) (lit "how are you").
Proof.
  split.
  - discriminate.
  - apply (proj1 context_of_prior_turns hi_hello (lit "how are you")).
    discriminate.
Defined.

(** C9: on an empty history the assembled text is the prompt itself. *)
Theorem context_of_first_turn (prompt : jstring) :
  fullContext [] prompt = prompt.
Proof. reflexivity. Qed.

(** ** Running the monad *)

Lemma bind_returned (A B : Type) (m : M A) (k : A -> M B) s b s' :
  bind m k s = (Returned b, s') ->
  exists a s1, m s = (Returned a, s1) /\ k a s1 = (Returned b, s').
Proof.
  unfold bind. destruct (m s) as [[a|e] s1]; intro H.
  - now exists a, s1.
  - discriminate.
Qed.

Lemma bind_thrown (A B : Type) (m : M A) (k : A -> M B) s e s' :
  bind m k s = (Thrown e, s') ->
  m s = (Thrown e, s')
  \/ exists a s1, m s = (Returned a, s1) /\ k a s1 = (Thrown e, s').
Proof.
  unfold bind. destruct (m s) as [[a|e0] s1]; intro H.
  - right. now exists a, s1.
  - left. now injection H as -> ->.
Qed.

(** Peel the first step off a run of [x <- m ;; k] that returned. *)
Ltac returned_step H x s Hx :=
  apply bind_returned in H; destruct H as (x & s & Hx & H).

(** The same for a run that threw: either the first step threw, or it
    returned and the rest threw. *)
Ltac thrown_step H x s Hx :=
  apply bind_thrown in H; destruct H as [Hx | (x & s & Hx & H)].

Lemma rethrow (A : Type) (m : M A) s :
  try_catch m (fun error => throw error) s = m s.
Proof. unfold try_catch, throw. now destruct (m s) as [[a|e] s1]. Qed.

(** ** The store calls *)

Lemma insert_conversation_data o st user title t1 t2 row st' :
  insert_conversation o st user title t1 t2 = (Data row, st') ->
  row = Conversation.mk (assigned_id o) user title t1 t2
  /\ st' = mkStore (conversations st ++ [row]) (messages st)
  /\ existsb (fun c => jstring_eqb (Conversation.id c) (assigned_id o))
             (conversations st) = false.
Proof.
  unfold insert_conversation. destruct (fault o); [discriminate|].
  destruct (existsb _ _) eqn:E; [discriminate|].
  intro H. injection H as <- <-. auto.
Qed.

Lemma insert_conversation_error o st user title t1 t2 e st' :
  insert_conversation o st user title t1 t2 = (Error e, st') -> st' = st.
Proof.
  unfold insert_conversation. destruct (fault o).
  - now intros [= _ <-].
  - destruct (existsb _ _); [now intros [= _ <-] | discriminate].
Qed.

Lemma insert_message_data o st cid role content t row st' :
  insert_message o st cid role content t = (Data row, st') ->
  row = Message.mk (assigned_id o) cid role content t
  /\ st' = mkStore (conversations st) (messages st ++ [row]).
Proof.
  unfold insert_message. destruct (fault o); [discriminate|].
  destruct (existsb _ _); [discriminate|].
  intro H. injection H as <- <-. auto.
Qed.

Lemma insert_message_error o st cid role content t e st' :
  insert_message o st cid role content t = (Error e, st') -> st' = st.
Proof.
  unfold insert_message. destruct (fault o).
  - now intros [= _ <-].
  - destruct (existsb _ _); [now intros [= _ <-] | discriminate].
Qed.

Lemma select_conversation_data f st id user c :
  select_conversation f st id user = Data c ->
  In c (conversations st) /\ Conversation.id c = id /\ Conversation.user_id c = user.
Proof.
  unfold select_conversation. destruct f; [discriminate|].
  destruct (filter _ _) as [|c0 [|c1 l]] eqn:E; try discriminate.
  intros [= ->].
  assert (Hin : In c (filter (fun c => jstring_eqb (Conversation.id c) id
                                       && jstring_eqb (Conversation.user_id c) user)
                             (conversations st)))
    by (rewrite E; now left).
  apply filter_In in Hin. destruct Hin as [Hin Hb].
  apply andb_true_iff in Hb. destruct Hb as [H1 H2].
  apply jstring_eqb_eq in H1, H2. auto.
Qed.

(** ** The helpers, run *)

Lemma getOrCreateConversation_returned w user cid title s c s' :
  getOrCreateConversation w user cid title s = (Returned c, s') ->
  (truthy cid = true
   /\ select_conversation (find_fault w) (db s) (to_text cid) user = Data c
   /\ s' = s)
  \/ ((truthy cid = false
       \/ exists e, select_conversation (find_fault w) (db s) (to_text cid) user
                    = Error e)
      /\ exists st',
          insert_conversation (create w) (db s) user title
            (fst (create_clock w)) (snd (create_clock w)) = (Data c, st')
          /\ s' = mkState st' (log s ++ [InsertedConversation c])).
Proof.
  unfold getOrCreateConversation. rewrite rethrow.
  assert (Hins : forall s0,
    (r <- mutate (fun d => insert_conversation (create w) d user title
                             (fst (create_clock w)) (snd (create_clock w)))
                 InsertedConversation ;;
     match r with Error e => throw e | Data data => ret data end) s0
    = (Returned c, s') ->
    exists st',
      insert_conversation (create w) (db s0) user title
        (fst (create_clock w)) (snd (create_clock w)) = (Data c, st')
      /\ s' = mkState st' (log s0 ++ [InsertedConversation c])).
  { intros s0. unfold bind, mutate, throw, ret.
    destruct (insert_conversation _ _ _ _ _ _) as [[row|e] st'];
      [|discriminate].
    intros [= -> <-]. now exists st'. }
  destruct (truthy cid) eqn:Ht.
  - unfold bind at 1. unfold query at 1.
    destruct (select_conversation _ _ _ _) as [data|e] eqn:Hsel.
    + unfold ret. intros [= -> <-]. left. auto.
    + intro H. right. split; [right; now exists e|]. now apply Hins.
  - intro H. right. split; [now left|]. now apply Hins.
Qed.

Lemma getConversationHistory_returned w id limit s h s' :
  getConversationHistory w id limit s = (Returned h, s') ->
  select_messages (history_fault w) (db s) id limit = Data h /\ s' = s.
Proof.
  unfold getConversationHistory. rewrite rethrow.
  unfold bind, query, throw, ret.
  destruct (select_messages _ _ _ _) as [data|e]; [|discriminate].
  now intros [= -> <-].
Qed.

Lemma getConversationHistory_thrown w id limit s e s' :
  getConversationHistory w id limit s = (Thrown e, s') -> s' = s.
Proof.
  unfold getConversationHistory. rewrite rethrow.
  unfold bind, query, throw, ret.
  destruct (select_messages _ _ _ _) as [data|e0]; [discriminate|].
  now intros [= _ <-].
Qed.

Lemma saveMessage_returned o now cid role content s m s' :
  saveMessage o now cid role content s = (Returned m, s') ->
  m = Message.mk (assigned_id o) cid role content now
  /\ insert_message o (db s) cid role content now
     = (Data m, mkStore (conversations (db s)) (messages (db s) ++ [m]))
  /\ s' = mkState (mkStore (conversations (db s)) (messages (db s) ++ [m]))
                  (log s ++ [InsertedMessage m]).
Proof.
  unfold saveMessage. rewrite rethrow. unfold bind, mutate, throw, ret.
  destruct (insert_message _ _ _ _ _ _) as [[row|e] st'] eqn:E; [|discriminate].
  intros [= -> <-]. apply insert_message_data in E as E'.
  destruct E' as [-> ->]. auto.
Qed.

Lemma saveMessage_thrown o now cid role content s e s' :
  saveMessage o now cid role content s = (Thrown e, s') -> s' = s.
Proof.
  unfold saveMessage. rewrite rethrow. unfold bind, mutate, throw, ret.
  destruct (insert_message _ _ _ _ _ _) as [[row|e0] st'] eqn:E; [discriminate|].
  intros [= _ <-]. apply insert_message_error in E. subst. now destruct s.
Qed.

Lemma generateContent_returned w text s r s' :
  generateContent w text s = (Returned r, s') ->
  completion w model text = Data r
  /\ s' = mkState (db s) (log s ++ [GenerateContent model text]).
Proof.
  unfold generateContent. destruct (completion w model text); [|discriminate].
  now intros [= -> <-].
Qed.

Lemma generateContent_thrown w text s e s' :
  generateContent w text s = (Thrown e, s') ->
  completion w model text = Error e
  /\ s' = mkState (db s) (log s ++ [GenerateContent model text]).
Proof.
  unfold generateContent. destruct (completion w model text); [discriminate|].
  now intros [= -> <-].
Qed.

Lemma verifyAuth_authenticated w authorization user next :
  authenticated w authorization user ->
  verifyAuth w authorization next = next user.
Proof.
  intros (token & -> & Hu). unfold verifyAuth, bearer.
  change (lit "Bearer " ++ token)
    with (66 :: 101 :: 97 :: 114 :: 101 :: 114 :: 32 :: token)%N.
  cbn [truthy negb orb substring_from skipn].
  replace (startsWith (66 :: 101 :: 97 :: 114 :: 101 :: 114 :: 32 :: token)%N
                      (lit "Bearer ")) with true by reflexivity.
  cbn [negb]. now rewrite Hu.
Qed.

(** ** A completed turn *)

(** Everything a turn that answers 200 has done. *)
Lemma chat_completed w user req s resp s' :
  chat w user req s = (Returned resp, s') ->
  status resp = 200 ->
  exists p c s1 history r,
    prompt req = JStr p /\ p <> []
    /\ getOrCreateConversation w user (conversation_id req)
         (substring 0 50 p ++ lit "...") s = (Returned c, s1)
    /\ select_messages (history_fault w) (db s1) (Conversation.id c) 20
       = Data history
    /\ completion w model (fullContext history p) = Data r
    /\ let mu := Message.mk (assigned_id (save_user w)) (Conversation.id c)
                   (lit "user") p (save_user_clock w) in
       let ma := Message.mk (assigned_id (save_assistant w)) (Conversation.id c)
                   (lit "assistant") r (save_assistant_clock w) in
       let title := substring 0 50 p
                      ++ (if 50 <? List.length p then lit "..." else []) in
       let saved := mkStore (conversations (db s1))
                            (messages (db s1) ++ [mu; ma]) in
       db s' = (if List.length history =? 0
                then snd (update_title (retitle_fault w) saved
                            (Conversation.id c) title)
                else saved)
       /\ log s' = log s1
                   ++ [InsertedMessage mu;
                       GenerateContent model (fullContext history p);
                       InsertedMessage ma]
                   ++ (if List.length history =? 0
                       then match retitle_fault w with
                            | None => [UpdatedTitle (Conversation.id c) title]
                            | Some _ => []
                            end
                       else [])
       /\ resp = mkResponse 200
                   (ChatJson r (Conversation.id c)
                      match model_name req with
                      | JUndefined => JStr (lit "gemini-2.0-flash-exp")
                      | v => v
                      end).
Proof.
  unfold chat, try_catch.
  match goal with
  | |- (match ?m s with _ => _ end) = _ -> _ =>
      destruct (m s) as [[resp0|e] s0] eqn:Hbody
  end.
  2:{ intros H Hst.
      destruct (truthy (JStr e) && includes e (lit "API_KEY"));
        injection H as <- <-; discriminate Hst. }
  intros [= <- <-] Hst.
  destruct (truthy (prompt req)) eqn:Htruthy; cbn [negb] in Hbody.
  2:{ injection Hbody as <- <-. discriminate Hst. }
  destruct (prompt req) as [| |p|t text] eqn:Hp; try discriminate Hbody.
  returned_step Hbody c s1 Hc.
  returned_step Hbody history s2 Hh.
  apply getConversationHistory_returned in Hh. destruct Hh as [Hh ->].
  returned_step Hbody mu s3 Hmu.
  apply saveMessage_returned in Hmu. destruct Hmu as (-> & _ & ->).
  returned_step Hbody r s4 Hr.
  apply generateContent_returned in Hr. destruct Hr as [Hr ->].
  returned_step Hbody ma s5 Hma.
  apply saveMessage_returned in Hma. destruct Hma as (-> & _ & ->).
  returned_step Hbody u s6 Hu.
  injection Hbody as <- <-.
  exists p, c, s1, history, r.
  repeat split; auto.
  - intros ->. discriminate Htruthy.
  - cbn [db messages conversations log] in Hu.
    destruct (List.length history =? 0).
    + unfold mutate, update_title in Hu |- *.
      cbn [db messages conversations log] in Hu.
      destruct (retitle_fault w); injection Hu as _ <-; cbn [db snd];
        repeat rewrite <- app_assoc; reflexivity.
    + injection Hu as _ <-. cbn [db]. repeat rewrite <- app_assoc. reflexivity.
  - cbn [db messages conversations log] in Hu.
    destruct (List.length history =? 0).
    + unfold mutate, update_title in Hu.
      cbn [db messages conversations log] in Hu.
      destruct (retitle_fault w); injection Hu as _ <-; cbn [log];
        repeat rewrite <- app_assoc; reflexivity.
    + injection Hu as _ <-. cbn [log]. repeat rewrite <- app_assoc. reflexivity.
Qed.

(** ** Facts about the tables *)

Lemma no_messages_of_unknown st id :
  referential_integrity st = true ->
  existsb (fun c => jstring_eqb (Conversation.id c) id) (conversations st) = false ->
  messages_of st id = [].
Proof.
  unfold referential_integrity, messages_of. intros Hri Hnew.
  induction (messages st) as [|m rest IH]; [reflexivity|].
  simpl in Hri. apply andb_true_iff in Hri. destruct Hri as [Hm Hrest].
  simpl. destruct (jstring_eqb (Message.conversation_id m) id) eqn:E.
  - apply jstring_eqb_eq in E. subst id. congruence.
  - now apply IH.
Qed.

Lemma retitle_leaves_others title id (rows : list Conversation.t) :
  existsb (fun c => jstring_eqb (Conversation.id c) id) rows = false ->
  map (fun c => if jstring_eqb (Conversation.id c) id
                then set_title title c else c) rows
  = rows.
Proof.
  induction rows as [|c rest IH]; [reflexivity|].
  simpl. intro H. apply orb_false_iff in H. destruct H as [Hc Hrest].
  rewrite Hc. f_equal. now apply IH.
Qed.

Lemma not_existsb_not_in id (rows : list Conversation.t) :
  existsb (fun c => jstring_eqb (Conversation.id c) id) rows = false ->
  ~ In id (map Conversation.id rows).
Proof.
  intros H Hin. apply in_map_iff in Hin. destruct Hin as (c & <- & Hin).
  assert (existsb (fun c0 => jstring_eqb (Conversation.id c0) (Conversation.id c))
                  rows = true)
    by (apply existsb_exists; exists c; split; [assumption|apply jstring_eqb_refl]).
  congruence.
Qed.

Lemma select_messages_data f st id limit rows :
  select_messages f st id limit = Data rows ->
  rows = firstn limit (order_by_created_at (messages_of st id)).
Proof. unfold select_messages. destruct f; [discriminate|]. now intros [= <-]. Qed.

(** ** The first turn of a conversation *)

(** The first turn on a store that applies the title update: an
    authenticated chat request with a non-empty prompt and no conversation
    id, whose turn completes, has added exactly one conversation (owned by
    the caller) and exactly two messages to it, the prompt under role [user]
    and the completion's answer under role [assistant]; the conversation's
    title is then the first 50 characters of the prompt, followed by
    ["..."] exactly when the prompt is longer than 50. *)
Theorem first_turn_creates_conversation
    w authorization user req p st resp s' :
  authenticated w authorization user ->
  prompt req = JStr p ->
  p <> [] ->
  conversation_id req = JUndefined ->
  referential_integrity st = true ->
  retitle_fault w = None ->
  post_api_chat w authorization req (fresh st) = (Returned resp, s') ->
  status resp = 200 ->
  exists r,
    let id := assigned_id (create w) in
    completion w model p = Data r
    /\ ~ In id (map Conversation.id (conversations st))
    /\ conversations (db s')
       = conversations st
           ++ [Conversation.mk id user
                 (firstn 50 p ++ (if 50 <? List.length p then lit "..." else []))
                 (fst (create_clock w)) (snd (create_clock w))]
    /\ messages (db s')
       = messages st
           ++ [Message.mk (assigned_id (save_user w)) id (lit "user") p
                          (save_user_clock w);
               Message.mk (assigned_id (save_assistant w)) id (lit "assistant") r
                          (save_assistant_clock w)]
    /\ exists m, body resp = ChatJson r id m.
Proof.
  intros Hauth Hp Hne Hcid Hri Hretitle Hrun Hst.
  unfold post_api_chat in Hrun.
  rewrite (verifyAuth_authenticated _ Hauth) in Hrun.
  destruct (chat_completed _ _ _ _ Hrun Hst)
    as (p' & c & s1 & history & r & Hp' & _ & Hc & Hh & Hr & Hdb & _ & Hresp).
  rewrite Hp in Hp'. injection Hp' as <-.
  apply getOrCreateConversation_returned in Hc.
  rewrite Hcid in Hc. cbn [truthy] in Hc.
  destruct Hc as [(Habs & _) | (_ & st1 & Hins & ->)]; [discriminate|].
  cbn [fresh db] in Hins. apply insert_conversation_data in Hins.
  destruct Hins as (Hrow & -> & Hnew).
  cbn [db] in Hh. apply select_messages_data in Hh.
  assert (Hid : Conversation.id c = assigned_id (create w)) by now rewrite Hrow.
  assert (Hnone : history = []).
  { rewrite Hh. unfold messages_of. cbn [messages].
    fold (messages_of st (Conversation.id c)).
    rewrite Hid, (no_messages_of_unknown _ _ Hri Hnew). reflexivity. }
  clear Hh. subst history. cbn [fullContext List.length Nat.ltb Nat.leb] in Hr.
  cbn [List.length Nat.eqb db conversations messages] in Hdb.
  rewrite Hretitle in Hdb. cbn [update_title snd conversations messages] in Hdb.
  exists r. cbn zeta. rewrite Hdb, Hresp. cbn [conversations messages body].
  repeat split.
  - exact Hr.
  - now apply not_existsb_not_in.
  - rewrite map_app, Hid, (retitle_leaves_others _ _ _ Hnew). f_equal.
    cbn [map]. rewrite Hid, jstring_eqb_refl, Hrow. unfold set_title.
    cbn [Conversation.id Conversation.user_id Conversation.created_at
         Conversation.updated_at]. now rewrite substring_prefix.
  - now rewrite Hid.
  - rewrite Hid. eauto.
Qed.

Lemma first_turn_creates_conversation_witness :
  exists resp s',
    post_api_chat (calm_world (lit "Hello!")) (bearer (lit "token-a"))
      (mkChatRequest (JStr (lit "hi")) JUndefined JUndefined)
      (fresh one_exchange) = (Returned resp, s')
    /\ status resp = 200
    /\ exists r,
        completion (calm_world (lit "Hello!")) model (lit "hi") = Data r
        /\ ~ In (lit "c-new") (map Conversation.id (conversations one_exchange))
        /\ conversations (db s')
           = conversations one_exchange
               ++ [Conversation.mk (lit "c-new") alice (lit "hi") 100%N 100%N]
        /\ messages (db s')
           = messages one_exchange
               ++ [Message.mk (lit "m-new-1") (lit "c-new") (lit "user")
                              (lit "hi") 101%N;
                   Message.mk (lit "m-new-2") (lit "c-new") (lit "assistant")
                              r 102%N]
        /\ exists m, body resp = ChatJson r (lit "c-new") m.
Proof.
  eexists. eexists. split; [cbv; reflexivity|]. split; [reflexivity|].
  apply first_turn_creates_conversation
    with (w := calm_world (lit "Hello!"))
         (authorization := bearer (lit "token-a"))
         (user := alice)
         (req := mkChatRequest (JStr (lit "hi")) JUndefined JUndefined)
         (p := lit "hi") (st := one_exchange).
  - exists (lit "token-a"). split; reflexivity.
  - reflexivity.
  - discriminate.
  - reflexivity.
  - reflexivity.
  - reflexivity.
  - reflexivity.
  - reflexivity.
Defined.

(** A prompt of 60 characters: the title is its first 50 and ["..."]. *)
Example long_prompt_title :
  exists resp s',
    post_api_chat (calm_world (lit "Hello!")) (bearer (lit "token-a"))
      (mkChatRequest (JStr (repeat 97%N 60)) JUndefined JUndefined)
      (fresh empty_store) = (Returned resp, s')
    /\ status resp = 200
    /\ map Conversation.title (conversations (db s'))
       = [repeat 97%N 50 ++ lit "..."].
Proof.
  eexists. eexists. split; [cbv; reflexivity|]. split; reflexivity.
Qed.

(** C1, where the code departs from it: Bob's first turn, prompt ["ping"],
    no conversation id, on a store that accepts the three inserts and
    refuses the title update.  The turn completes: it is answered 200, one
    conversation and both messages are stored.  The conversation's title is
    then ["ping..."], the one it was created with (line 228), and not
    ["ping"], the first 50 characters of a prompt that is not longer than
    50: the outcome of the update is never read (lines 262-267), where every
    other store call of the file throws on an error. *)
Theorem first_turn_title_after_refused_update :
  post_api_chat
    (mkWorld two_users None (mkInsertion None (lit "c7")) (40%N, 40%N)
             None (mkInsertion None (lit "m7")) 41%N
             (mkInsertion None (lit "m8")) 42%N
             (fun _ _ => Data (lit "pong"))
             (Some (lit "new row violates row-level security policy")))
    (bearer (lit "token-b"))
    (mkChatRequest (JStr (lit "ping")) JUndefined JUndefined)
    (fresh empty_store)
  = (Returned (mkResponse 200
                 (ChatJson (lit "pong") (lit "c7")
                           (JStr (lit "gemini-2.0-flash-exp")))),
     mkState
       (mkStore
          [Conversation.mk (lit "c7") bob (lit "ping...") 40%N 40%N]
          [Message.mk (lit "m7") (lit "c7") (lit "user") (lit "ping") 41%N;
           Message.mk (lit "m8") (lit "c7") (lit "assistant") (lit "pong") 42%N])
       [InsertedConversation
          (Conversation.mk (lit "c7") bob (lit "ping...") 40%N 40%N);
        InsertedMessage
          (Message.mk (lit "m7") (lit "c7") (lit "user") (lit "ping") 41%N);
        GenerateContent model (lit "ping");
        InsertedMessage
          (Message.mk (lit "m8") (lit "c7") (lit "assistant") (lit "pong") 42%N)])
  /\ spec_first_turn_title (lit "ping") = lit "ping"
  /\ lit "ping..." <> spec_first_turn_title (lit "ping").
Proof.
  split; [vm_compute; reflexivity|]. split; [reflexivity|].
  vm_compute. discriminate.
Qed.

(** ** The history window *)

Lemma order_by_created_at_sorted (rows : list Message.t) :
  oldest_first (order_by_created_at rows).
Proof.
  unfold oldest_first, order_by_created_at.
  assert (Htrans : Relations_1.Transitive
                     (fun a b => is_true (CreatedAtOrder.leb a b))).
  { intros a b c Hab Hbc. unfold is_true, CreatedAtOrder.leb in *.
    apply N.leb_le in Hab, Hbc. apply N.leb_le. lia. }
  pose proof (ByCreatedAt.StronglySorted_sort rows Htrans) as Hs.
  induction Hs as [|a l Hl IH Ha]; constructor.
  - exact IH.
  - eapply Forall_impl; [|exact Ha].
    intros b Hb. unfold is_true, CreatedAtOrder.leb in Hb.
    now apply N.leb_le in Hb.
Qed.

Lemma order_by_created_at_perm (rows : list Message.t) :
  Permutation rows (order_by_created_at rows).
Proof. apply ByCreatedAt.Permuted_sort. Qed.

Lemma order_by_created_at_length (rows : list Message.t) :
  List.length (order_by_created_at rows) = List.length rows.
Proof. symmetry. apply Permutation_length, order_by_created_at_perm. Qed.

Lemma in_firstn (A : Type) (n : nat) (l : list A) (x : A) :
  In x (firstn n l) -> In x l.
Proof.
  intro H. rewrite <- (firstn_skipn n l). apply in_or_app. now left.
Qed.

Lemma in_skipn (A : Type) (n : nat) (l : list A) (x : A) :
  In x (skipn n l) -> In x l.
Proof.
  intro H. rewrite <- (firstn_skipn n l). apply in_or_app. now right.
Qed.

Lemma oldest_first_firstn (n : nat) (rows : list Message.t) :
  oldest_first rows -> oldest_first (firstn n rows).
Proof.
  unfold oldest_first. intro Hs. revert n.
  induction Hs as [|a l Hl IH Ha]; intros [|n]; simpl; constructor.
  - apply IH.
  - apply Forall_forall. intros b Hb. apply in_firstn in Hb.
    rewrite Forall_forall in Ha. auto.
Qed.

Lemma oldest_first_split (n : nat) (rows : list Message.t) :
  oldest_first rows ->
  forall a b, In a (firstn n rows) -> In b (skipn n rows) ->
              (Message.created_at a <= Message.created_at b)%N.
Proof.
  unfold oldest_first. intro Hs. revert n.
  induction Hs as [|x l Hl IH Hx]; intros [|n] a b Ha Hb; simpl in *;
    try contradiction.
  destruct Ha as [<-|Ha].
  - rewrite Forall_forall in Hx. apply Hx. eapply in_skipn. exact Hb.
  - eapply IH; eassumption.
Qed.

Lemma window_empty_iff (rows : list Message.t) :
  firstn 20 (order_by_created_at rows) = [] <-> rows = [].
Proof.
  split.
  - intro H. pose proof (order_by_created_at_length rows) as Hlen.
    destruct (order_by_created_at rows) as [|m l]; [|discriminate H].
    destruct rows; [reflexivity|discriminate Hlen].
  - intros ->. reflexivity.
Qed.

Lemma window_members (st : store) (id : jstring) (n : nat) (m : Message.t) :
  In m (firstn n (order_by_created_at (messages_of st id))) ->
  In m (messages st) /\ Message.conversation_id m = id.
Proof.
  intro H. apply in_firstn in H.
  apply (Permutation_in _ (Permutation_sym (order_by_created_at_perm _))) in H.
  unfold messages_of in H. apply filter_In in H. destruct H as [Hin Hb].
  apply jstring_eqb_eq in Hb. auto.
Qed.

(** ** Continuing a conversation *)

(** C2, as stated, fails: a conversation that exists but holds no message
    yet (here Alice's [c1], titled ["Old title"]) gets its title overwritten
    by the turn, because the handler tests the fetched history, not whether
    the conversation was just created. *)
Lemma continuing_turn_retitles_empty_conversation :
  select_conversation None untouched_conversation (lit "c1") alice
  = Data (Conversation.mk (lit "c1") alice (lit "Old title") 9%N 9%N)
  /\ post_api_chat (calm_world (lit "Hello!")) (bearer (lit "token-a"))
       (mkChatRequest (JStr (lit "hi")) (JStr (lit "c1")) JUndefined)
       (fresh untouched_conversation)
     = (Returned (mkResponse 200
                    (ChatJson (lit "Hello!") (lit "c1")
                              (JStr (lit "gemini-2.0-flash-exp")))),
        mkState
          (mkStore
             [Conversation.mk (lit "c1") alice (lit "hi") 9%N 9%N]
             [Message.mk (lit "m-new-1") (lit "c1") (lit "user") (lit "hi") 101%N;
              Message.mk (lit "m-new-2") (lit "c1") (lit "assistant")
                         (lit "Hello!") 102%N])
          [InsertedMessage
             (Message.mk (lit "m-new-1") (lit "c1") (lit "user") (lit "hi") 101%N);
           GenerateContent model (lit "hi");
           InsertedMessage
             (Message.mk (lit "m-new-2") (lit "c1") (lit "assistant")
                         (lit "Hello!") 102%N);
           UpdatedTitle (lit "c1") (lit "hi")])
  /\ lit "hi" <> lit "Old title".
Proof.
  split; [reflexivity|]. split; [vm_compute; reflexivity|]. discriminate.
Qed.

(** C2, amended: an authenticated chat request with a non-empty prompt and
    a conversation id that resolves to a conversation of the caller, whose
    turn completes, has appended exactly two messages to that conversation
    (the prompt under [user], the answer under [assistant]); it leaves every
    title unchanged when the conversation already held a message, and when
    it held none and the store applies the title update, the title of that
    conversation is overwritten with the first 50 characters of the prompt,
    followed by ["..."] when the prompt is longer than 50, every other
    conversation staying as it was. *)
Theorem continuing_turn_appends_two
    w authorization user req p c st resp s' :
  authenticated w authorization user ->
  prompt req = JStr p ->
  p <> [] ->
  truthy (conversation_id req) = true ->
  select_conversation (find_fault w) st (to_text (conversation_id req)) user
  = Data c ->
  post_api_chat w authorization req (fresh st) = (Returned resp, s') ->
  status resp = 200 ->
  exists r,
    completion w model
      (fullContext
         (firstn 20 (order_by_created_at (messages_of st (Conversation.id c))))
         p) = Data r
    /\ In c (conversations st)
    /\ Conversation.user_id c = user
    /\ messages (db s')
       = messages st
           ++ [Message.mk (assigned_id (save_user w)) (Conversation.id c)
                          (lit "user") p (save_user_clock w);
               Message.mk (assigned_id (save_assistant w)) (Conversation.id c)
                          (lit "assistant") r (save_assistant_clock w)]
    /\ (messages_of st (Conversation.id c) <> [] ->
        conversations (db s') = conversations st)
    /\ (messages_of st (Conversation.id c) = [] ->
        retitle_fault w = None ->
        conversations (db s')
        = map (fun c0 => if jstring_eqb (Conversation.id c0) (Conversation.id c)
                         then set_title (spec_first_turn_title p) c0 else c0)
              (conversations st))
    /\ exists m, body resp = ChatJson r (Conversation.id c) m.
Proof.
  intros Hauth Hp Hne Hcid Hsel Hrun Hst.
  unfold post_api_chat in Hrun.
  rewrite (verifyAuth_authenticated _ Hauth) in Hrun.
  destruct (chat_completed _ _ _ _ Hrun Hst)
    as (p' & c' & s1 & history & r & Hp' & _ & Hc & Hh & Hr & Hdb & _ & Hresp).
  rewrite Hp in Hp'. injection Hp' as <-.
  apply getOrCreateConversation_returned in Hc. cbn [fresh db] in Hc.
  rewrite Hcid, Hsel in Hc.
  destruct Hc as [(_ & Hc & ->) | ([Habs | (e & Habs)] & _)]; try discriminate.
  injection Hc as <-.
  cbn [fresh db] in Hh. apply select_messages_data in Hh.
  destruct (select_conversation_data _ _ _ _ Hsel) as (Hin & _ & Howner).
  exists r. cbn zeta in Hdb. cbn [fresh db conversations messages] in Hdb.
  repeat split.
  - now rewrite <- Hh.
  - exact Hin.
  - exact Howner.
  - rewrite Hdb. destruct (List.length history =? 0); [|reflexivity].
    unfold update_title. now destruct (retitle_fault w).
  - intro Hold. rewrite Hdb.
    destruct history as [|m0 rest]; [|reflexivity].
    symmetry in Hh. apply (proj1 (window_empty_iff _)) in Hh. contradiction.
  - intros Hnone Hretitle. rewrite Hdb, Hh, Hnone, Hretitle.
    cbn [order_by_created_at firstn List.length Nat.eqb update_title snd
         conversations].
    unfold spec_first_turn_title. now rewrite substring_prefix.
  - rewrite Hresp. cbn [body]. eauto.
Qed.

Lemma continuing_turn_appends_two_witness :
  exists resp s',
    post_api_chat (calm_world (lit "Fine.")) (bearer (lit "token-a"))
      (mkChatRequest (JStr (lit "how are you")) (JStr (lit "c1")) JUndefined)
      (fresh one_exchange) = (Returned resp, s')
    /\ status resp = 200
    /\ messages (db s')
       = hi_hello
           ++ [Message.mk (lit "m-new-1") (lit "c1") (lit "user")
                          (lit "how are you") 101%N;
               Message.mk (lit "m-new-2") (lit "c1") (lit "assistant")
                          (lit "Fine.") 102%N]
    /\ conversations (db s') = conversations one_exchange.
Proof.
  eexists. eexists. split; [cbv; reflexivity|]. split; [reflexivity|].
  destruct (@continuing_turn_appends_two
              (calm_world (lit "Fine.")) (bearer (lit "token-a")) alice
              (mkChatRequest (JStr (lit "how are you")) (JStr (lit "c1")) JUndefined)
              (lit "how are you")
              (Conversation.mk (lit "c1") alice (lit "hi...") 9%N 9%N)
              one_exchange
              _ _
              (ex_intro _ (lit "token-a") (conj eq_refl eq_refl))
              eq_refl
              ltac:(discriminate)
              eq_refl
              eq_refl
              eq_refl
              eq_refl)
    as (r & Hr & _ & _ & Hm & Hkeep & _ & _).
  injection Hr as <-.
  split.
  - exact Hm.
  - apply Hkeep. discriminate.
Defined.

(** ** A request without a prompt *)

(** C8: an authenticated chat request whose body has no [prompt] is answered
    400 and touches nothing: the store is as before and nothing was
    committed or sent. *)
Theorem missing_prompt_is_rejected w authorization user req st :
  authenticated w authorization user ->
  prompt req = JUndefined ->
  post_api_chat w authorization req (fresh st)
  = (Returned (mkResponse 400
                 (ErrorJson (lit "Missing required parameter: prompt") None)),
     mkState st []).
Proof.
  intros Hauth Hp. unfold post_api_chat.
  rewrite (verifyAuth_authenticated _ Hauth).
  unfold chat, try_catch. now rewrite Hp.
Qed.

Lemma missing_prompt_is_rejected_witness :
  authenticated (calm_world (lit "Hello!")) (bearer (lit "token-a")) alice
  /\ prompt (mkChatRequest JUndefined (JStr (lit "c1")) JUndefined) = JUndefined
  /\ post_api_chat (calm_world (lit "Hello!")) (bearer (lit "token-a"))
       (mkChatRequest JUndefined (JStr (lit "c1")) JUndefined)
       (fresh one_exchange)
     = (Returned (mkResponse 400
                    (ErrorJson (lit "Missing required parameter: prompt") None)),
        mkState one_exchange []).
Proof.
  assert (Ha : authenticated (calm_world (lit "Hello!"))
                 (bearer (lit "token-a")) alice)
    by (exists (lit "token-a"); split; reflexivity).
  split; [exact Ha|]. split; [reflexivity|].
  apply (missing_prompt_is_rejected
           (mkChatRequest JUndefined (JStr (lit "c1")) JUndefined)
           one_exchange Ha).
  reflexivity.
Defined.

(** ** A conversation id that does not resolve *)

Lemma select_conversation_unowned f st id user :
  (forall c, In c (conversations st) ->
             Conversation.id c = id -> Conversation.user_id c <> user) ->
  exists e, select_conversation f st id user = Error e.
Proof.
  intro H. unfold select_conversation. destruct f as [e|]; [now exists e|].
  assert (Hnil : filter (fun c => jstring_eqb (Conversation.id c) id
                                  && jstring_eqb (Conversation.user_id c) user)
                        (conversations st) = []).
  { induction (conversations st) as [|c rest IH]; [reflexivity|].
    simpl. destruct (jstring_eqb (Conversation.id c) id) eqn:E1;
      destruct (jstring_eqb (Conversation.user_id c) user) eqn:E2; simpl;
      try (apply IH; intros c0 Hin; apply H; now right).
    apply jstring_eqb_eq in E1, E2. exfalso.
    apply (H c); [now left|assumption|assumption]. }
  rewrite Hnil. eauto.
Qed.

Lemma getOrCreateConversation_unresolved w user cid title s :
  (forall c, In c (conversations (db s)) ->
             Conversation.id c = to_text cid -> Conversation.user_id c <> user) ->
  getOrCreateConversation w user cid title s
  = getOrCreateConversation w user JUndefined title s.
Proof.
  intro H. unfold getOrCreateConversation. rewrite !rethrow.
  cbn [truthy]. destruct (truthy cid); [|reflexivity].
  destruct (@select_conversation_unowned (find_fault w) (db s) (to_text cid)
              user H) as [e He].
  unfold bind at 1. unfold query at 1. now rewrite He.
Qed.

Lemma bind_same_start (A B : Type) (m1 m2 : M A) (k : A -> M B) s :
  m1 s = m2 s -> bind m1 k s = bind m2 k s.
Proof. unfold bind. now intros ->. Qed.

(** ** The messages route *)

Lemma get_messages_run w authorization user id st :
  authenticated w authorization user ->
  get_api_conversation_messages w authorization id (fresh st)
  = match history_fault w with
    | None =>
        (Returned (mkResponse 200
                     (MessagesJson
                        (firstn 20 (order_by_created_at (messages_of st id))))),
         fresh st)
    | Some _ =>
        (Returned (mkResponse 500
                     (ErrorJson (lit "Failed to fetch messages") None)),
         fresh st)
    end.
Proof.
  intro Hauth. unfold get_api_conversation_messages.
  rewrite (verifyAuth_authenticated _ Hauth).
  unfold try_catch, bind, getConversationHistory. rewrite rethrow.
  unfold bind, query, select_messages, throw, ret.
  now destruct (history_fault w).
Qed.

(** C6: the messages route answers any two authenticated callers alike,
    whoever owns the conversation: when the store answers, the response is
    the conversation's rows oldest first, at most 20 of them, all of them
    when there are no more than 20. *)
Theorem messages_route_ignores_owner w a1 a2 u1 u2 id st :
  authenticated w a1 u1 ->
  authenticated w a2 u2 ->
  get_api_conversation_messages w a1 id (fresh st)
  = get_api_conversation_messages w a2 id (fresh st)
  /\ (history_fault w = None ->
      exists rows,
        get_api_conversation_messages w a1 id (fresh st)
        = (Returned (mkResponse 200 (MessagesJson rows)), fresh st)
        /\ rows = firstn 20 (order_by_created_at (messages_of st id))
        /\ oldest_first rows
        /\ List.length rows <= 20
        /\ (forall m, In m rows ->
                      In m (messages st) /\ Message.conversation_id m = id)
        /\ (List.length (messages_of st id) <= 20 ->
            Permutation rows (messages_of st id))).
Proof.
  intros H1 H2. rewrite (get_messages_run id st H1), (get_messages_run id st H2).
  split; [reflexivity|].
  intros ->. eexists. split; [reflexivity|]. split; [reflexivity|].
  repeat split.
  - apply oldest_first_firstn, order_by_created_at_sorted.
  - apply firstn_le_length.
  - now apply (window_members st id 20).
  - now apply (window_members st id 20).
  - intro Hle. rewrite firstn_all2.
    + apply Permutation_sym, order_by_created_at_perm.
    + now rewrite order_by_created_at_length.
Qed.

Lemma messages_route_ignores_owner_witness :
  authenticated (calm_world []) (bearer (lit "token-a")) alice
  /\ authenticated (calm_world []) (bearer (lit "token-b")) bob
  /\ get_api_conversation_messages (calm_world []) (bearer (lit "token-a"))
       (lit "c1") (fresh one_exchange)
     = get_api_conversation_messages (calm_world []) (bearer (lit "token-b"))
         (lit "c1") (fresh one_exchange).
Proof.
  assert (Ha : authenticated (calm_world []) (bearer (lit "token-a")) alice)
    by (exists (lit "token-a"); split; reflexivity).
  assert (Hb : authenticated (calm_world []) (bearer (lit "token-b")) bob)
    by (exists (lit "token-b"); split; reflexivity).
  split; [exact Ha|]. split; [exact Hb|].
  exact (proj1 (messages_route_ignores_owner (lit "c1") one_exchange Ha Hb)).
Defined.

(** Bob, who does not own [c1], is handed Alice's two messages. *)
Example bob_reads_alice :
  get_api_conversation_messages (calm_world []) (bearer (lit "token-b"))
    (lit "c1") (fresh one_exchange)
  = (Returned (mkResponse 200 (MessagesJson hi_hello)), fresh one_exchange).
Proof. vm_compute. reflexivity. Qed.

(** ** Every way a turn can go *)

Lemma getOrCreateConversation_effect w user cid title s c s1 :
  getOrCreateConversation w user cid title s = (Returned c, s1) ->
  messages (db s1) = messages (db s)
  /\ (log s1 = log s \/ log s1 = log s ++ [InsertedConversation c]).
Proof.
  intro H. apply getOrCreateConversation_returned in H.
  destruct H as [(_ & _ & ->) | (_ & st' & Hins & ->)].
  - auto.
  - apply insert_conversation_data in Hins. destruct Hins as (_ & -> & _).
    cbn [db log messages]. auto.
Qed.

Lemma getOrCreateConversation_thrown w user cid title s e s1 :
  getOrCreateConversation w user cid title s = (Thrown e, s1) -> s1 = s.
Proof.
  unfold getOrCreateConversation. rewrite rethrow.
  assert (Hins : forall s0,
    (r <- mutate (fun d => insert_conversation (create w) d user title
                             (fst (create_clock w)) (snd (create_clock w)))
                 InsertedConversation ;;
     match r with Error e => throw e | Data data => ret data end) s0
    = (Thrown e, s1) -> s1 = s0).
  { intros s0. unfold bind, mutate, throw, ret.
    destruct (insert_conversation _ _ _ _ _ _) as [[row|e0] st'] eqn:E;
      [discriminate|].
    intros [= _ <-]. apply insert_conversation_error in E. subst.
    now destruct s0. }
  destruct (truthy cid).
  - unfold bind at 1. unfold query at 1.
    destruct (select_conversation _ _ _ _) as [data|e0].
    + discriminate.
    + apply Hins.
  - apply Hins.
Qed.

(** A chat request either never reaches the completion service, having
    committed at most a new conversation, or reaches it right after
    committing the prompt as a [user] message. *)
Lemma chat_invocation w user req s resp s' :
  chat w user req s = (Returned resp, s') ->
  (messages (db s') = messages (db s)
   /\ (log s' = log s \/ exists c, log s' = log s ++ [InsertedConversation c]))
  \/ exists p c s1 history later,
      prompt req = JStr p
      /\ getOrCreateConversation w user (conversation_id req)
           (substring 0 50 p ++ lit "...") s = (Returned c, s1)
      /\ select_messages (history_fault w) (db s1) (Conversation.id c) 20
         = Data history
      /\ let mu := Message.mk (assigned_id (save_user w)) (Conversation.id c)
                     (lit "user") p (save_user_clock w) in
         log s' = log s1
                  ++ InsertedMessage mu
                     :: GenerateContent model (fullContext history p) :: later
         /\ (forall m t, ~ In (GenerateContent m t) later)
         /\ In mu (messages (db s'))
         /\ (forall e,
                completion w model (fullContext history p) = Error e ->
                later = [] /\ status resp = 500
                /\ db s' = mkStore (conversations (db s1))
                                   (messages (db s1) ++ [mu])).
Proof.
  unfold chat, try_catch.
  match goal with
  | |- (match ?m s with _ => _ end) = _ -> _ =>
      destruct (m s) as [[resp0|e] s0] eqn:Hbody
  end.
  - (* the handler body returned *)
    intros [= <- <-].
    destruct (truthy (prompt req)) eqn:Htruthy; cbn [negb] in Hbody.
    2:{ injection Hbody as _ <-. left. auto. }
    destruct (prompt req) as [| |p|t text] eqn:Hp; try discriminate Hbody.
    returned_step Hbody c s1 Hc.
    returned_step Hbody history s2 Hh.
    apply getConversationHistory_returned in Hh. destruct Hh as [Hh ->].
    returned_step Hbody mu s3 Hmu.
    apply saveMessage_returned in Hmu. destruct Hmu as (-> & _ & ->).
    returned_step Hbody r s4 Hr.
    apply generateContent_returned in Hr. destruct Hr as [Hr ->].
    returned_step Hbody ma s5 Hma.
    apply saveMessage_returned in Hma. destruct Hma as (-> & _ & ->).
    returned_step Hbody u s6 Hu.
    injection Hbody as _ <-.
    cbn [db messages conversations log] in Hu.
    right. exists p, c, s1, history.
    destruct (List.length history =? 0).
    + unfold mutate, update_title in Hu.
      cbn [db messages conversations log] in Hu.
      destruct (retitle_fault w); injection Hu as _ <-; eexists;
        (split; [reflexivity|]); (split; [exact Hc|]); (split; [exact Hh|]);
        cbn zeta; cbn [db log messages]; repeat rewrite <- app_assoc;
        (split; [reflexivity|]);
        (split; [intros m t Hx; cbn [In app] in Hx; intuition discriminate|]);
        (split; [apply in_or_app; right; now left|]);
        intros e0 He0; congruence.
    + injection Hu as _ <-. eexists.
      split; [reflexivity|]. split; [exact Hc|]. split; [exact Hh|].
      cbn zeta. cbn [db log messages]. repeat rewrite <- app_assoc.
      split; [reflexivity|].
      split; [intros m t Hx; cbn [In app] in Hx; intuition discriminate|].
      split; [apply in_or_app; right; now left|].
      intros e0 He0. congruence.
  - (* the handler body threw, and the catch clause answers 500 *)
    intro Hcatch.
    assert (Hout : s' = s0 /\ status resp = 500).
    { destruct (truthy (JStr e) && includes e (lit "API_KEY"));
        injection Hcatch as <- <-; auto. }
    destruct Hout as [-> H500]. clear Hcatch.
    destruct (truthy (prompt req)) eqn:Htruthy; cbn [negb] in Hbody;
      [|discriminate Hbody].
    destruct (prompt req) as [| |p|t text] eqn:Hp;
      try (injection Hbody as _ <-; left; now auto).
    thrown_step Hbody c s1 Hc.
    { apply getOrCreateConversation_thrown in Hc. subst. left. auto. }
    pose proof (getOrCreateConversation_effect _ _ _ _ _ Hc) as [Hm1 Hl1].
    assert (Hearly : messages (db s1) = messages (db s)
                     /\ (log s1 = log s
                         \/ exists c0, log s1 = log s ++ [InsertedConversation c0])).
    { split; [exact Hm1|]. destruct Hl1; eauto. }
    thrown_step Hbody history s2 Hh.
    { apply getConversationHistory_thrown in Hh. subst. now left. }
    apply getConversationHistory_returned in Hh. destruct Hh as [Hh ->].
    thrown_step Hbody mu s3 Hmu.
    { apply saveMessage_thrown in Hmu. subst. now left. }
    apply saveMessage_returned in Hmu. destruct Hmu as (-> & _ & ->).
    right. exists p, c, s1, history, [].
    split; [reflexivity|]. split; [exact Hc|]. split; [exact Hh|].
    cbn zeta.
    thrown_step Hbody r s4 Hr.
    { apply generateContent_thrown in Hr. destruct Hr as [Hr ->].
      cbn [db log messages]. rewrite <- app_assoc.
      split; [reflexivity|]. split; [intros m t []|].
      split; [apply in_or_app; right; now left|]. auto. }
    apply generateContent_returned in Hr. destruct Hr as [Hr ->].
    thrown_step Hbody ma s5 Hma.
    { apply saveMessage_thrown in Hma. subst s0.
      cbn [db log messages]. rewrite <- app_assoc.
      split; [reflexivity|]. split; [intros m t []|].
      split; [apply in_or_app; right; now left|].
      intros e0 He0. congruence. }
    exfalso. apply bind_thrown in Hbody.
    destruct Hbody as [Hu | (u & s6 & _ & Hbody)]; [|discriminate Hbody].
    destruct (List.length history =? 0); [|discriminate Hu].
    unfold mutate in Hu.
    destruct (update_title _ _ _ _) as [[[]|e1] db1]; discriminate Hu.
Qed.

Lemma chat_always_answers w user req s :
  exists resp s', chat w user req s = (Returned resp, s').
Proof.
  unfold chat, try_catch.
  match goal with
  | |- exists _ _, (match ?m s with _ => _ end) = _ =>
      destruct (m s) as [[resp0|e] s0]
  end.
  - now exists resp0, s0.
  - destruct (truthy (JStr e) && includes e (lit "API_KEY"));
      eexists; eexists; reflexivity.
Qed.

(** ** The prompt is committed before the completion service is called *)

(** C4: a chat request always gets a response, and whenever the completion
    service was called during it, the commit of the prompt as a [user]
    message comes immediately before that call; if the call then fails, the
    request ends there with a 500, and the store holds the messages it had
    plus that [user] message: nothing is undone and no [assistant] message
    is written. *)
Theorem prompt_saved_before_completion w authorization user req st :
  authenticated w authorization user ->
  exists resp s',
    post_api_chat w authorization req (fresh st) = (Returned resp, s')
    /\ forall m text,
        In (GenerateContent m text) (log s') ->
        exists p mu earlier later,
          prompt req = JStr p
          /\ log s' = earlier ++ InsertedMessage mu
                                 :: GenerateContent m text :: later
          /\ Message.role mu = lit "user"
          /\ Message.content mu = p
          /\ In mu (messages (db s'))
          /\ (forall e,
                 completion w m text = Error e ->
                 later = [] /\ status resp = 500
                 /\ messages (db s') = messages st ++ [mu]).
Proof.
  intro Hauth. unfold post_api_chat.
  rewrite (verifyAuth_authenticated _ Hauth).
  destruct (chat_always_answers w user req (fresh st)) as (resp & s' & Hrun).
  exists resp, s'. split; [exact Hrun|].
  intros m text Hin.
  destruct (chat_invocation _ _ _ _ Hrun)
    as [(_ & Hlog) | (p & c & s1 & history & later & Hp & Hc & _ & Hshape)].
  - exfalso. cbn [fresh log app] in Hlog.
    destruct Hlog as [Hlog | (c & Hlog)]; rewrite Hlog in Hin;
      cbn [In] in Hin; intuition discriminate.
  - cbn zeta in Hshape. destruct Hshape as (Hlog & Hlater & Hmu & Hfail).
    destruct (getOrCreateConversation_effect _ _ _ _ _ Hc) as (Hm1 & Hl1).
    cbn [fresh db log app] in Hm1, Hl1.
    assert (Hcall : GenerateContent m text
                    = GenerateContent model (fullContext history p)).
    { rewrite Hlog in Hin. apply in_app_or in Hin.
      destruct Hin as [Hin | [Hin | [Hin | Hin]]].
      - exfalso. destruct Hl1 as [Hl1 | Hl1]; rewrite Hl1 in Hin;
          cbn [In] in Hin; intuition discriminate.
      - discriminate Hin.
      - now symmetry.
      - exfalso. exact (Hlater _ _ Hin). }
    injection Hcall as -> ->.
    eexists p, _, (log s1), later.
    split; [exact Hp|]. split; [exact Hlog|].
    split; [reflexivity|]. split; [reflexivity|]. split; [exact Hmu|].
    intros e He. destruct (Hfail e He) as (-> & H500 & Hdb).
    split; [reflexivity|]. split; [exact H500|].
    rewrite Hdb. cbn [messages]. now rewrite Hm1.
Qed.

Lemma prompt_saved_before_completion_witness :
  authenticated (stormy_world (lit "quota exceeded")) (bearer (lit "token-a")) alice
  /\ exists resp s',
      post_api_chat (stormy_world (lit "quota exceeded")) (bearer (lit "token-a"))
        (mkChatRequest (JStr (lit "how are you")) (JStr (lit "c1")) JUndefined)
        (fresh one_exchange) = (Returned resp, s')
      /\ status resp = 500
      /\ exists mu,
          Message.role mu = lit "user"
          /\ Message.content mu = lit "how are you"
          /\ messages (db s') = hi_hello ++ [mu].
Proof.
  assert (Ha : authenticated (stormy_world (lit "quota exceeded"))
                 (bearer (lit "token-a")) alice)
    by (exists (lit "token-a"); split; reflexivity).
  split; [exact Ha|].
  destruct (@prompt_saved_before_completion
              (stormy_world (lit "quota exceeded")) (bearer (lit "token-a")) alice
              (mkChatRequest (JStr (lit "how are you")) (JStr (lit "c1")) JUndefined)
              one_exchange Ha)
    as (resp & s' & Hrun & Hall).
  exists resp, s'. split; [exact Hrun|].
  assert (Hlog : In (GenerateContent model
                       (fullContext hi_hello (lit "how are you"))) (log s')).
  { vm_compute in Hrun. injection Hrun as <- <-. vm_compute. right. now left. }
  destruct (Hall _ _ Hlog) as (p & mu & earlier & later & Hp & _ & Hrole & Hcontent
                               & _ & Hfail).
  destruct (Hfail (lit "quota exceeded") eq_refl) as (_ & H500 & Hm).
  split; [exact H500|].
  exists mu. split; [exact Hrole|]. split; [|exact Hm].
  cbn [prompt] in Hp. injection Hp as <-. exact Hcontent.
Defined.

(** The one call a request makes to the completion service: it goes to the
    fixed model, with the text assembled from the fetched history. *)
Lemma completion_call w user req st resp s' m text :
  chat w user req (fresh st) = (Returned resp, s') ->
  In (GenerateContent m text) (log s') ->
  exists p c s1 history,
    prompt req = JStr p
    /\ getOrCreateConversation w user (conversation_id req)
         (substring 0 50 p ++ lit "...") (fresh st) = (Returned c, s1)
    /\ select_messages (history_fault w) (db s1) (Conversation.id c) 20
       = Data history
    /\ m = model
    /\ text = fullContext history p.
Proof.
  intros Hrun Hin.
  destruct (chat_invocation _ _ _ _ Hrun)
    as [(_ & Hlog) | (p & c & s1 & history & later & Hp & Hc & Hh & Hshape)].
  - exfalso. cbn [fresh log app] in Hlog.
    destruct Hlog as [Hlog | (c & Hlog)]; rewrite Hlog in Hin;
      cbn [In] in Hin; intuition discriminate.
  - cbn zeta in Hshape. destruct Hshape as (Hlog & Hlater & _ & _).
    destruct (getOrCreateConversation_effect _ _ _ _ _ Hc) as (_ & Hl1).
    cbn [fresh db log app] in Hl1.
    exists p, c, s1, history.
    split; [exact Hp|]. split; [exact Hc|]. split; [exact Hh|].
    rewrite Hlog in Hin. apply in_app_or in Hin.
    destruct Hin as [Hin | [Hin | [Hin | Hin]]].
    + exfalso. destruct Hl1 as [Hl1 | Hl1]; rewrite Hl1 in Hin;
        cbn [In] in Hin; intuition discriminate.
    + discriminate Hin.
    + injection Hin as <- <-. auto.
    + exfalso. exact (Hlater _ _ Hin).
Qed.

(** In the 21-message conversation the newest message, written at time 20,
    is the one left out of the history. *)
Example newest_message_is_left_out :
  skipn 20 (order_by_created_at (messages_of long_conversation (lit "c1")))
  = [Message.mk (lit "m" ++ repeat 120%N 20) (lit "c1") (lit "user")
                (lit "turn") 20%N].
Proof. vm_compute. reflexivity. Qed.

(** ** The model named in the response *)

(** C7 (the code departs from it): asked for [gemini-1.5-pro], the turn
    completes, the one completion call goes to [gemini-2.0-flash-exp], and
    the response names [gemini-1.5-pro] as the model used. *)
Theorem model_used_is_the_requested_name :
  post_api_chat (calm_world (lit "Hello!")) (bearer (lit "token-a"))
    (mkChatRequest (JStr (lit "hi")) JUndefined (JStr (lit "gemini-1.5-pro")))
    (fresh empty_store)
  = (Returned (mkResponse 200
                 (ChatJson (lit "Hello!") (lit "c-new")
                           (JStr (lit "gemini-1.5-pro")))),
     mkState
       (mkStore
          [Conversation.mk (lit "c-new") alice (lit "hi") 100%N 100%N]
          [Message.mk (lit "m-new-1") (lit "c-new") (lit "user") (lit "hi") 101%N;
           Message.mk (lit "m-new-2") (lit "c-new") (lit "assistant")
                      (lit "Hello!") 102%N])
       [InsertedConversation
          (Conversation.mk (lit "c-new") alice (lit "hi...") 100%N 100%N);
        InsertedMessage
          (Message.mk (lit "m-new-1") (lit "c-new") (lit "user") (lit "hi") 101%N);
        GenerateContent (lit "gemini-2.0-flash-exp") (lit "hi");
        InsertedMessage
          (Message.mk (lit "m-new-2") (lit "c-new") (lit "assistant")
                      (lit "Hello!") 102%N);
        UpdatedTitle (lit "c-new") (lit "hi")])
  /\ lit "gemini-1.5-pro" <> lit "gemini-2.0-flash-exp".
Proof. split; [vm_compute; reflexivity | discriminate]. Qed.

(** In general: every completion call of a chat request goes to the fixed
    model, and a completed turn reports the requested name, or the default
    when none was requested. *)
Lemma model_used_in_general w user req st resp s' :
  chat w user req (fresh st) = (Returned resp, s') ->
  (forall m text, In (GenerateContent m text) (log s') -> m = model)
  /\ (status resp = 200 ->
      exists r id,
        body resp
        = ChatJson r id
            match model_name req with
            | JUndefined => JStr (lit "gemini-2.0-flash-exp")
            | v => v
            end).
Proof.
  intro Hrun. split.
  - intros m text Hin.
    destruct (@completion_call _ _ _ _ _ _ _ _ Hrun Hin)
      as (p & c & s1 & history & _ & _ & _ & Hm & _).
    exact Hm.
  - intro Hst.
    destruct (chat_completed _ _ _ _ Hrun Hst)
      as (p & c & s1 & history & r & _ & _ & _ & _ & _ & _ & _ & Hresp).
    rewrite Hresp. cbn [body]. eauto.
Qed.

(** * Beyond the turn protocol: the gate, the other routes, the failure
      paths and the invariants of the store *)

(** ** The authentication gate *)

Lemma startsWith_prefix (s p : jstring) :
  startsWith s p = true -> s = p ++ skipn (List.length p) s.
Proof.
  revert s. induction p as [|x p IH]; intros s H; [reflexivity|].
  destruct s as [|c s]; [discriminate H|].
  simpl in H. apply andb_true_iff in H. destruct H as [Hx Hs].
  apply N.eqb_eq in Hx. subst c. simpl. f_equal. now apply IH.
Qed.

Lemma verifyAuth_rejects w authorization next s :
  (forall user, ~ authenticated w authorization user) ->
  exists resp,
    verifyAuth w authorization next s = (Returned resp, s) /\ status resp = 401.
Proof.
  intro Hno. unfold verifyAuth.
  destruct authorization as [h|]; [|eexists; split; reflexivity].
  destruct (negb (truthy (JStr h)) || negb (startsWith h (lit "Bearer "))) eqn:Hh;
    [eexists; split; reflexivity|].
  apply orb_false_iff in Hh. destruct Hh as [_ Hs].
  apply negb_false_iff in Hs. apply startsWith_prefix in Hs.
  cbv zeta. unfold substring_from.
  destruct (getUser w (skipn 7 h)) as [user| |] eqn:Hu;
    try (eexists; split; reflexivity).
  exfalso. apply (Hno user). exists (skipn 7 h). split; [|exact Hu].
  unfold bearer. f_equal. exact Hs.
Qed.

Lemma verifyAuth_wide_rejects w authorization next s :
  (forall user, ~ authenticated w authorization user) ->
  exists resp,
    verifyAuth_wide w authorization next s = (Returned resp, s)
    /\ route_status resp = 401.
Proof.
  intro Hno. unfold verifyAuth_wide.
  destruct authorization as [h|]; [|eexists; split; reflexivity].
  destruct (negb (truthy (JStr h)) || negb (startsWith h (lit "Bearer "))) eqn:Hh;
    [eexists; split; reflexivity|].
  apply orb_false_iff in Hh. destruct Hh as [_ Hs].
  apply negb_false_iff in Hs. apply startsWith_prefix in Hs.
  cbv zeta. unfold substring_from.
  destruct (getUser w (skipn 7 h)) as [user| |] eqn:Hu;
    try (eexists; split; reflexivity).
  exfalso. apply (Hno user). exists (skipn 7 h). split; [|exact Hu].
  unfold bearer. f_equal. exact Hs.
Qed.

Lemma verifyAuth_wide_authenticated w authorization user next :
  authenticated w authorization user ->
  verifyAuth_wide w authorization next = next user.
Proof.
  intros (token & -> & Hu). unfold verifyAuth_wide, bearer.
  change (lit "Bearer " ++ token)
    with (66 :: 101 :: 97 :: 114 :: 101 :: 114 :: 32 :: token)%N.
  cbn [truthy negb orb substring_from skipn].
  replace (startsWith (66 :: 101 :: 97 :: 114 :: 101 :: 114 :: 32 :: token)%N
                      (lit "Bearer ")) with true by reflexivity.
  cbn [negb]. now rewrite Hu.
Qed.

(** The two copies of the gate are the same function: in front of a handler
    with the narrower bodies, the wide gate answers what [verifyAuth]
    answers. *)
Lemma verifyAuth_wide_agrees w authorization (next : jstring -> M response) s :
  verifyAuth_wide w authorization
    (fun user s0 =>
       match next user s0 with
       | (Returned r, s1) => (Returned (widen r), s1)
       | (Thrown e, s1) => (Thrown e, s1)
       end) s
  = match verifyAuth w authorization next s with
    | (Returned r, s1) => (Returned (widen r), s1)
    | (Thrown e, s1) => (Thrown e, s1)
    end.
Proof.
  unfold verifyAuth_wide, verifyAuth.
  destruct authorization as [h|]; [|reflexivity].
  destruct (negb (truthy (JStr h)) || negb (startsWith h (lit "Bearer ")));
    [reflexivity|].
  cbv zeta. now destruct (getUser w (substring_from 7 h)).
Qed.

(** X1: unless the request carries [Bearer <token>] with a token the identity
    service resolves to a user, each of the four protected routes answers
    401 and leaves the store and the effect log as they were. *)
Theorem protected_routes_reject_unauthenticated w authorization s :
  (forall user, ~ authenticated w authorization user) ->
  (forall req, exists resp,
      post_api_chat w authorization req s = (Returned resp, s)
      /\ status resp = 401)
  /\ (forall id, exists resp,
         get_api_conversation_messages w authorization id s = (Returned resp, s)
         /\ status resp = 401)
  /\ (forall fault, exists resp,
         get_api_conversations w fault authorization s = (Returned resp, s)
         /\ route_status resp = 401)
  /\ (forall fault cascade id, exists resp,
         delete_api_conversation w fault cascade authorization id s
         = (Returned resp, s)
         /\ route_status resp = 401).
Proof.
  intro Hno. repeat split; intros.
  - now apply verifyAuth_rejects.
  - now apply verifyAuth_rejects.
  - now apply verifyAuth_wide_rejects.
  - now apply verifyAuth_wide_rejects.
Qed.

Lemma protected_routes_reject_unauthenticated_witness :
  (forall user,
      ~ authenticated (calm_world []) (Some (lit "Basic dG9rZW4tYQ==")) user)
  /\ exists resp,
      delete_api_conversation (calm_world []) None true
        (Some (lit "Basic dG9rZW4tYQ==")) (lit "c1") (fresh one_exchange)
      = (Returned resp, fresh one_exchange)
      /\ route_status resp = 401.
Proof.
  assert (Hno : forall user,
             ~ authenticated (calm_world []) (Some (lit "Basic dG9rZW4tYQ==")) user).
  { intros user (token & H & _). discriminate H. }
  split; [exact Hno|].
  apply (proj2 (proj2 (proj2
           (@protected_routes_reject_unauthenticated
              (calm_world []) (Some (lit "Basic dG9rZW4tYQ=="))
              (fresh one_exchange) Hno)))).
Defined.

(** ** Listing conversations *)

Lemma order_by_updated_at_desc_sorted (rows : list Conversation.t) :
  StronglySorted
    (fun a b => (Conversation.updated_at b <= Conversation.updated_at a)%N)
    (order_by_updated_at_desc rows).
Proof.
  unfold order_by_updated_at_desc.
  assert (Htrans : Relations_1.Transitive
                     (fun a b => is_true (UpdatedAtOrder.leb a b))).
  { intros a b c Hab Hbc.
    unfold is_true, UpdatedAtOrder.leb, updated_at_geb in *.
    apply N.leb_le in Hab, Hbc. apply N.leb_le. lia. }
  pose proof (ByUpdatedAt.StronglySorted_sort rows Htrans) as Hs.
  induction Hs as [|a l Hl IH Ha]; constructor.
  - exact IH.
  - eapply Forall_impl; [|exact Ha].
    intros b Hb. unfold is_true, UpdatedAtOrder.leb, updated_at_geb in Hb.
    now apply N.leb_le in Hb.
Qed.

Lemma order_by_updated_at_desc_perm (rows : list Conversation.t) :
  Permutation rows (order_by_updated_at_desc rows).
Proof. apply ByUpdatedAt.Permuted_sort. Qed.

Lemma get_conversations_run w fault authorization user st :
  authenticated w authorization user ->
  get_api_conversations w fault authorization (fresh st)
  = match fault with
    | None =>
        (Returned (mkRoute 200
                     (ConversationsJson
                        (order_by_updated_at_desc (conversations_of st user)))),
         fresh st)
    | Some _ =>
        (Returned (mkRoute 500
                     (Json (ErrorJson (lit "Failed to fetch conversations") None))),
         fresh st)
    end.
Proof.
  intro Hauth. unfold get_api_conversations.
  rewrite (verifyAuth_wide_authenticated _ Hauth).
  unfold try_catch, bind, query, select_conversations, throw, ret.
  now destruct fault.
Qed.

(** X2: the conversations route hands an authenticated caller exactly the
    conversations stored under the caller's user id, each once, none of
    anyone else's, most recently updated first; when the store's select
    fails it answers 500 with a fixed message.  Either way the store is
    left as it was. *)
Theorem conversations_route_lists_own w fault authorization user st :
  authenticated w authorization user ->
  exists resp,
    get_api_conversations w fault authorization (fresh st)
    = (Returned resp, fresh st)
    /\ (fault = None ->
        exists rows,
          resp = mkRoute 200 (ConversationsJson rows)
          /\ Permutation rows (conversations_of st user)
          /\ (forall c, In c rows <->
                        In c (conversations st) /\ Conversation.user_id c = user)
          /\ StronglySorted
               (fun a b => (Conversation.updated_at b <= Conversation.updated_at a)%N)
               rows)
    /\ (fault <> None ->
        resp = mkRoute 500
                 (Json (ErrorJson (lit "Failed to fetch conversations") None))).
Proof.
  intro Hauth. rewrite (get_conversations_run fault st Hauth).
  destruct fault as [e|].
  - eexists. split; [reflexivity|]. split; [discriminate|reflexivity].
  - eexists. split; [reflexivity|]. split; [|congruence].
    intros _. eexists. split; [reflexivity|].
    split; [apply Permutation_sym, order_by_updated_at_desc_perm|].
    split; [|apply order_by_updated_at_desc_sorted].
    intro c. split.
    + intro Hin.
      apply (Permutation_in _ (Permutation_sym (order_by_updated_at_desc_perm _)))
        in Hin.
      unfold conversations_of in Hin. apply filter_In in Hin.
      destruct Hin as [Hin Hb]. apply jstring_eqb_eq in Hb. auto.
    + intros [Hin Hu].
      apply (Permutation_in _ (order_by_updated_at_desc_perm _)).
      unfold conversations_of. apply filter_In. split; [exact Hin|].
      now apply jstring_eqb_eq.
Qed.

Lemma conversations_route_lists_own_witness :
  authenticated (calm_world []) (bearer (lit "token-b")) bob
  /\ get_api_conversations (calm_world []) None (bearer (lit "token-b"))
       (fresh one_exchange)
     = (Returned (mkRoute 200 (ConversationsJson [])), fresh one_exchange).
Proof.
  assert (Hb : authenticated (calm_world []) (bearer (lit "token-b")) bob)
    by (exists (lit "token-b"); split; reflexivity).
  split; [exact Hb|].
  destruct (@conversations_route_lists_own (calm_world []) None
              (bearer (lit "token-b")) bob one_exchange Hb)
    as (resp & Hrun & Hok & _).
  destruct (Hok eq_refl) as (rows & -> & Hperm & _).
  apply Permutation_sym, Permutation_nil in Hperm. now subst rows.
Defined.

(** ** Deleting a conversation *)

Lemma filter_all (A : Type) (f : A -> bool) (l : list A) :
  (forall x, In x l -> f x = true) -> filter f l = l.
Proof.
  induction l as [|x l IH]; intro H; [reflexivity|].
  simpl. rewrite (H x (or_introl eq_refl)). f_equal.
  apply IH. intros y Hy. apply H. now right.
Qed.

Lemma filter_none (A : Type) (f : A -> bool) (l : list A) :
  (forall x, In x l -> f x = false) -> filter f l = [].
Proof.
  induction l as [|x l IH]; intro H; [reflexivity|].
  simpl. rewrite (H x (or_introl eq_refl)).
  apply IH. intros y Hy. apply H. now right.
Qed.

Lemma delete_conversation_foreign cascade st id user :
  (forall c, In c (conversations st) ->
             Conversation.id c = id -> Conversation.user_id c <> user) ->
  delete_conversation None cascade st id user = (Data tt, st).
Proof.
  intro Hforeign. unfold delete_conversation.
  assert (Hnot : forall c, In c (conversations st) ->
                 jstring_eqb (Conversation.id c) id
                 && jstring_eqb (Conversation.user_id c) user = false).
  { intros c Hin.
    destruct (jstring_eqb (Conversation.id c) id) eqn:E1; [|reflexivity].
    destruct (jstring_eqb (Conversation.user_id c) user) eqn:E2; [|reflexivity].
    apply jstring_eqb_eq in E1, E2. exfalso. exact (Hforeign c Hin E1 E2). }
  rewrite (filter_none _ _ Hnot).
  rewrite filter_all by (intros c Hin; now rewrite (Hnot c Hin)).
  destruct st as [cs ms]. cbn [conversations messages]. f_equal. f_equal.
  destruct cascade; [|reflexivity].
  now apply filter_all.
Qed.

Lemma delete_run w fault cascade authorization user id st :
  authenticated w authorization user ->
  delete_api_conversation w fault cascade authorization id (fresh st)
  = match fault with
    | None =>
        (Returned (mkRoute 200
                     (MessageJson (lit "Conversation deleted successfully"))),
         fresh (snd (delete_conversation None cascade st id user)))
    | Some _ =>
        (Returned (mkRoute 500
                     (Json (ErrorJson (lit "Failed to delete conversation") None))),
         fresh st)
    end.
Proof.
  intro Hauth. unfold delete_api_conversation.
  rewrite (verifyAuth_wide_authenticated _ Hauth).
  unfold try_catch, bind, modify, throw, ret, fresh.
  destruct fault; reflexivity.
Qed.

(** X3: deleting under an id that no conversation of the caller carries (a
    conversation of someone else, or no conversation at all) changes
    nothing in the store, whatever the schema does on deletes, and is still
    answered 200 "Conversation deleted successfully". *)
Theorem delete_of_foreign_conversation w cascade authorization user id st :
  authenticated w authorization user ->
  (forall c, In c (conversations st) ->
             Conversation.id c = id -> Conversation.user_id c <> user) ->
  delete_api_conversation w None cascade authorization id (fresh st)
  = (Returned (mkRoute 200
                 (MessageJson (lit "Conversation deleted successfully"))),
     fresh st).
Proof.
  intros Hauth Hforeign. rewrite (delete_run None cascade id st Hauth).
  now rewrite delete_conversation_foreign.
Qed.

Lemma delete_of_foreign_conversation_witness :
  authenticated (calm_world []) (bearer (lit "token-b")) bob
  /\ delete_api_conversation (calm_world []) None true (bearer (lit "token-b"))
       (lit "c1") (fresh one_exchange)
     = (Returned (mkRoute 200
                    (MessageJson (lit "Conversation deleted successfully"))),
        fresh one_exchange).
Proof.
  assert (Hb : authenticated (calm_world []) (bearer (lit "token-b")) bob)
    by (exists (lit "token-b"); split; reflexivity).
  split; [exact Hb|].
  apply (@delete_of_foreign_conversation (calm_world []) true
           (bearer (lit "token-b")) bob (lit "c1") one_exchange Hb).
  intros c [<-|[]] _. discriminate.
Defined.

Lemma existsb_id_true (rows : list Conversation.t) (x : jstring) :
  existsb (fun c => jstring_eqb (Conversation.id c) x) rows = true
  <-> exists c, In c rows /\ Conversation.id c = x.
Proof.
  rewrite existsb_exists. split; intros (c & Hin & H); exists c; split; auto;
    now apply jstring_eqb_eq.
Qed.

Lemma referential_integrity_spec (st : store) :
  referential_integrity st = true
  <-> forall m, In m (messages st) ->
                exists c, In c (conversations st)
                          /\ Conversation.id c = Message.conversation_id m.
Proof.
  unfold referential_integrity. rewrite forallb_forall.
  split; intros H m Hin; apply existsb_id_true; auto.
Qed.

Lemma filter_keeps_keys_unique (X K : Type) (key : X -> K) (keep : X -> bool)
    (rows : list X) :
  NoDup (map key rows) -> NoDup (map key (filter keep rows)).
Proof.
  intro Hrows. induction rows as [|r rows IH]; [constructor|].
  simpl in *. inversion Hrows as [|? ? Hr Hrest]; subst.
  destruct (keep r); [|now apply IH].
  simpl. constructor; [|now apply IH].
  intro Hin. apply Hr. apply in_map_iff in Hin.
  destruct Hin as (y & Hy & Hin). apply filter_In in Hin.
  apply in_map_iff. exists y. tauto.
Qed.

Lemma doomed_spec (id user : jstring) (c : Conversation.t) :
  jstring_eqb (Conversation.id c) id && jstring_eqb (Conversation.user_id c) user
  = true
  <-> Conversation.id c = id /\ Conversation.user_id c = user.
Proof. rewrite andb_true_iff, !jstring_eqb_eq. tauto. Qed.

(** X4: a delete by an authenticated caller that the store carries out
    removes exactly the conversations with that id owned by the caller and
    no other; it adds no message and keeps every message of the other
    conversations; a store that cascades drops all messages of a
    conversation it deleted, one that does not keeps the messages table as
    it was; and deleting again changes nothing more. *)
Theorem delete_removes_own_conversation w cascade authorization user id st :
  authenticated w authorization user ->
  exists st',
    delete_api_conversation w None cascade authorization id (fresh st)
    = (Returned (mkRoute 200
                   (MessageJson (lit "Conversation deleted successfully"))),
       fresh st')
    /\ (forall c, In c (conversations st') <->
                  In c (conversations st)
                  /\ ~ (Conversation.id c = id /\ Conversation.user_id c = user))
    /\ (forall m, In m (messages st') -> In m (messages st))
    /\ (forall m, In m (messages st) -> Message.conversation_id m <> id ->
                  In m (messages st'))
    /\ (cascade = false -> messages st' = messages st)
    /\ (cascade = true ->
        (exists c, In c (conversations st)
                   /\ Conversation.id c = id /\ Conversation.user_id c = user) ->
        forall m, In m (messages st') -> Message.conversation_id m <> id)
    /\ delete_api_conversation w None cascade authorization id (fresh st')
       = (Returned (mkRoute 200
                      (MessageJson (lit "Conversation deleted successfully"))),
          fresh st').
Proof.
  intro Hauth. rewrite (delete_run None cascade id st Hauth).
  eexists. split; [reflexivity|].
  unfold delete_conversation. cbn [snd conversations messages].
  assert (Hconv : forall c,
    In c (filter (fun c0 => negb (jstring_eqb (Conversation.id c0) id
                                  && jstring_eqb (Conversation.user_id c0) user))
                 (conversations st))
    <-> In c (conversations st)
        /\ ~ (Conversation.id c = id /\ Conversation.user_id c = user)).
  { intro c. rewrite filter_In, negb_true_iff, <- doomed_spec.
    destruct (jstring_eqb (Conversation.id c) id
              && jstring_eqb (Conversation.user_id c) user); intuition congruence. }
  split; [exact Hconv|].
  split.
  { intros m Hin. destruct cascade; [|exact Hin].
    apply filter_In in Hin. tauto. }
  split.
  { intros m Hin Hother. destruct cascade; [|exact Hin].
    apply filter_In. split; [exact Hin|].
    apply negb_true_iff.
    destruct (existsb _ _) eqn:E; [|reflexivity].
    apply existsb_id_true in E. destruct E as (c & Hc & Hid).
    apply filter_In in Hc. destruct Hc as [_ Hd]. apply doomed_spec in Hd.
    exfalso. apply Hother. now rewrite <- Hid. }
  split; [now intros ->|].
  split.
  { intros -> (c & Hc & Hid & Hu) m Hin Hm.
    apply filter_In in Hin. destruct Hin as [_ Hkeep].
    apply negb_true_iff in Hkeep.
    assert (existsb (fun c0 => jstring_eqb (Conversation.id c0)
                                 (Message.conversation_id m))
              (filter (fun c0 => jstring_eqb (Conversation.id c0) id
                                 && jstring_eqb (Conversation.user_id c0) user)
                      (conversations st)) = true).
    { apply existsb_id_true. exists c. split; [|congruence].
      apply filter_In. split; [exact Hc|]. now apply doomed_spec. }
    congruence. }
  match goal with
  | |- delete_api_conversation _ _ _ _ _ (fresh ?st1) = _ =>
      rewrite (delete_run None cascade id st1 Hauth);
      rewrite (@delete_conversation_foreign cascade st1 id user)
  end.
  - reflexivity.
  - cbn [conversations]. intros c Hin Hid Hu. apply Hconv in Hin. tauto.
Qed.

Lemma delete_removes_own_conversation_witness :
  authenticated (calm_world []) (bearer (lit "token-a")) alice
  /\ delete_api_conversation (calm_world []) None true (bearer (lit "token-a"))
       (lit "c1") (fresh one_exchange)
     = (Returned (mkRoute 200
                    (MessageJson (lit "Conversation deleted successfully"))),
        fresh empty_store).
Proof.
  assert (Ha : authenticated (calm_world []) (bearer (lit "token-a")) alice)
    by (exists (lit "token-a"); split; reflexivity).
  split; [exact Ha|].
  destruct (@delete_removes_own_conversation (calm_world []) true
              (bearer (lit "token-a")) alice (lit "c1") one_exchange Ha)
    as (st' & Hrun & _).
  rewrite Hrun. vm_compute in Hrun. injection Hrun as <-. reflexivity.
Defined.

(** X5: on a store that cascades, a delete keeps the store well formed: ids
    stay unique and no message is left without its conversation.  (Without
    the cascade the ids stay unique as well; the messages of the deleted
    conversation are then left behind.) *)
Theorem delete_keeps_well_formed w fault cascade authorization id st resp s' :
  well_formed st ->
  delete_api_conversation w fault cascade authorization id (fresh st)
  = (Returned resp, s') ->
  unique_conversation_ids (db s')
  /\ unique_message_ids (db s')
  /\ (cascade = true -> well_formed (db s')).
Proof.
  intros (Hri & Hc & Hm) Hrun.
  assert (Hsame : well_formed st) by (repeat split; assumption).
  assert (Hcases : db s' = st
                   \/ exists user, db s' = snd (delete_conversation None cascade
                                                  st id user)).
  { unfold delete_api_conversation, verifyAuth_wide in Hrun.
    destruct authorization as [h|]; [|injection Hrun as _ <-; now left].
    destruct (negb (truthy (JStr h)) || negb (startsWith h (lit "Bearer ")));
      [injection Hrun as _ <-; now left|].
    cbv zeta in Hrun.
    destruct (getUser w (substring_from 7 h)) as [user| |];
      try (injection Hrun as _ <-; now left).
    unfold try_catch, bind, modify, throw, ret, fresh in Hrun.
    cbn [db log] in Hrun.
    destruct fault as [e|].
    - cbn in Hrun. injection Hrun as _ <-. now left.
    - right. exists user.
      destruct (delete_conversation None cascade st id user) as [[[]|e] st1] eqn:E;
        cbn in Hrun; injection Hrun as _ <-; reflexivity. }
  destruct Hcases as [-> | (user & ->)].
  { split; [exact Hc|]. split; [exact Hm|]. now intros _. }
  unfold delete_conversation. cbn [snd].
  unfold unique_conversation_ids, unique_message_ids, well_formed.
  cbn [conversations messages].
  assert (Hc' : NoDup (map Conversation.id
                  (filter (fun c => negb (jstring_eqb (Conversation.id c) id
                                          && jstring_eqb (Conversation.user_id c) user))
                          (conversations st))))
    by now apply filter_keeps_keys_unique.
  assert (Hm' : NoDup (map Message.id
                  (if cascade
                   then filter
                          (fun m => negb (existsb
                                            (fun c => jstring_eqb (Conversation.id c)
                                                        (Message.conversation_id m))
                                            (filter
                                               (fun c => jstring_eqb (Conversation.id c) id
                                                         && jstring_eqb
                                                              (Conversation.user_id c) user)
                                               (conversations st))))
                          (messages st)
                   else messages st)))
    by (destruct cascade; [now apply filter_keeps_keys_unique | exact Hm]).
  split; [exact Hc'|]. split; [exact Hm'|].
  intros ->. split; [|split; [exact Hc'|exact Hm']].
  apply referential_integrity_spec. cbn [conversations messages].
  intros m Hin. apply filter_In in Hin. destruct Hin as [Hin Hkeep].
  apply negb_true_iff in Hkeep.
  destruct (proj1 (referential_integrity_spec st) Hri m Hin) as (c & Hcin & Hid).
  exists c. split; [|exact Hid].
  apply filter_In. split; [exact Hcin|]. apply negb_true_iff.
  destruct (jstring_eqb (Conversation.id c) id
            && jstring_eqb (Conversation.user_id c) user) eqn:Hd; [|reflexivity].
  exfalso.
  assert (existsb (fun c0 => jstring_eqb (Conversation.id c0)
                               (Message.conversation_id m))
            (filter (fun c0 => jstring_eqb (Conversation.id c0) id
                               && jstring_eqb (Conversation.user_id c0) user)
                    (conversations st)) = true).
  { apply existsb_id_true. exists c. split; [|exact Hid].
    apply filter_In. now split. }
  congruence.
Qed.

Lemma delete_keeps_well_formed_witness :
  well_formed one_exchange
  /\ well_formed
       (db (snd (delete_api_conversation (calm_world []) None true
                   (bearer (lit "token-a")) (lit "c1") (fresh one_exchange)))).
Proof.
  assert (Hwf : well_formed one_exchange).
  { split; [reflexivity|]. split.
    - repeat constructor. intros [].
    - repeat constructor; simpl; intuition discriminate. }
  split; [exact Hwf|].
  refine (proj2 (proj2 (@delete_keeps_well_formed
                          (calm_world []) None true (bearer (lit "token-a"))
                          (lit "c1") one_exchange _ _ Hwf _)) eq_refl).
  vm_compute. reflexivity.
Defined.

(** ** What the chat route refuses *)



(** X7: a prompt that is truthy but not a string (a number, [true], an
    array, an object) passes the presence check and then makes the handler
    throw on [prompt.substring]: the answer is 500, and nothing was read
    from or written to the store and no completion call was made. *)
Theorem non_string_prompt_fails w authorization user req s :
  authenticated w authorization user ->
  truthy (prompt req) = true ->
  (forall p, prompt req <> JStr p) ->
  exists resp,
    post_api_chat w authorization req s = (Returned resp, s)
    /\ status resp = 500.
Proof.
  intros Hauth Ht Hns. unfold post_api_chat.
  rewrite (verifyAuth_authenticated _ Hauth).
  unfold chat, try_catch. rewrite Ht. cbn [negb].
  destruct (prompt req) as [| |p|t text]; try discriminate Ht.
  - exfalso. now apply (Hns p).
  - unfold throw.
    destruct (truthy (JStr (lit "prompt.substring is not a function"))
              && includes (lit "prompt.substring is not a function")
                          (lit "API_KEY"));
      eexists; split; reflexivity.
Qed.

Lemma non_string_prompt_fails_witness :
  authenticated (calm_world (lit "Hello!")) (bearer (lit "token-a")) alice
  /\ exists resp,
      post_api_chat (calm_world (lit "Hello!")) (bearer (lit "token-a"))
        (mkChatRequest (JOther true (lit "42")) JUndefined JUndefined)
        (fresh one_exchange)
      = (Returned resp, fresh one_exchange)
      /\ status resp = 500.
Proof.
  assert (Ha : authenticated (calm_world (lit "Hello!"))
                 (bearer (lit "token-a")) alice)
    by (exists (lit "token-a"); split; reflexivity).
  split; [exact Ha|].
  apply (@non_string_prompt_fails (calm_world (lit "Hello!"))
           (bearer (lit "token-a")) alice
           (mkChatRequest (JOther true (lit "42")) JUndefined JUndefined)
           (fresh one_exchange) Ha).
  - reflexivity.
  - intros p H. discriminate H.
Defined.

(** ** What the chat route answers when a call fails *)

Lemma getConversationHistory_run w id limit s :
  getConversationHistory w id limit s
  = match select_messages (history_fault w) (db s) id limit with
    | Data h => (Returned h, s)
    | Error e => (Thrown e, s)
    end.
Proof.
  unfold getConversationHistory. rewrite rethrow.
  unfold bind, query, throw, ret.
  now destruct (select_messages _ _ _ _).
Qed.

Lemma chat_catch_clause e s resp s' :
  (if truthy (JStr e) && includes e (lit "API_KEY")
   then ret (mkResponse 500
               (ErrorJson (lit "Invalid or missing Gemini API key. Please check your configuration.") None))
   else ret (mkResponse 500
               (ErrorJson (lit "Failed to generate response. Please try again.")
                          (Some e)))) s
  = (Returned resp, s') ->
  resp = mkResponse 500 (chat_error_body e) /\ s' = s.
Proof.
  unfold chat_error_body.
  destruct (truthy (JStr e) && includes e (lit "API_KEY"));
    intros [= <- <-]; auto.
Qed.

Lemma includes_empty_subject (sub : jstring) :
  sub <> [] -> includes [] sub = false.
Proof. destruct sub; [contradiction|reflexivity]. Qed.

(** X8: when the completion call of a chat request fails with message [e],
    the answer is 500; if [e] contains ["API_KEY"] the body is the fixed
    key message without details, otherwise it is the generic message with
    [e] itself, unaltered, as [details]. *)
Theorem completion_failure_response
    w authorization user req st resp s' m text e :
  authenticated w authorization user ->
  post_api_chat w authorization req (fresh st) = (Returned resp, s') ->
  In (GenerateContent m text) (log s') ->
  completion w m text = Error e ->
  status resp = 500
  /\ (includes e (lit "API_KEY") = true ->
      body resp
      = ErrorJson (lit "Invalid or missing Gemini API key. Please check your configuration.")
                  None)
  /\ (includes e (lit "API_KEY") = false ->
      body resp
      = ErrorJson (lit "Failed to generate response. Please try again.") (Some e)).
Proof.
  intros Hauth Hrun Hin He.
  unfold post_api_chat in Hrun.
  rewrite (verifyAuth_authenticated _ Hauth) in Hrun.
  destruct (@completion_call _ _ _ _ _ _ _ _ Hrun Hin)
    as (p & c & s1 & history & Hp & Hc & Hh & -> & ->).
  destruct (getOrCreateConversation_effect _ _ _ _ _ Hc) as (_ & Hl1).
  cbn [fresh log app] in Hl1.
  assert (Hresp : resp = mkResponse 500 (chat_error_body e)).
  { unfold chat, try_catch in Hrun. rewrite Hp in Hrun.
    destruct p as [|x p'].
    { injection Hrun as _ <-. destruct Hin. }
    cbn [truthy negb] in Hrun.
    match type of Hrun with
    | (match ?b (fresh st) with _ => _ end) = _ =>
        destruct (b (fresh st)) as [[r0|e0] s0] eqn:Hbody
    end.
    - exfalso.
      returned_step Hbody c0 s2 Hc0. rewrite Hc in Hc0. injection Hc0 as <- <-.
      returned_step Hbody h0 s3 Hh0.
      rewrite getConversationHistory_run, Hh in Hh0. injection Hh0 as <- <-.
      returned_step Hbody mu s4 Hmu.
      returned_step Hbody r s5 Hr.
      apply generateContent_returned in Hr. destruct Hr as [Hr _]. congruence.
    - apply chat_catch_clause in Hrun. destruct Hrun as [-> ->].
      thrown_step Hbody c0 s2 Hc0; [rewrite Hc in Hc0; discriminate Hc0|].
      rewrite Hc in Hc0. injection Hc0 as <- <-.
      thrown_step Hbody h0 s3 Hh0;
        [rewrite getConversationHistory_run, Hh in Hh0; discriminate Hh0|].
      rewrite getConversationHistory_run, Hh in Hh0. injection Hh0 as <- <-.
      thrown_step Hbody mu s4 Hmu.
      { exfalso. apply saveMessage_thrown in Hmu. subst s0.
        destruct Hl1 as [Hl1|Hl1]; rewrite Hl1 in Hin; cbn [In] in Hin;
          intuition discriminate. }
      thrown_step Hbody r s5 Hr.
      { apply generateContent_thrown in Hr. destruct Hr as [Hr _]. congruence. }
      exfalso. apply generateContent_returned in Hr. destruct Hr as [Hr _].
      congruence. }
  subst resp. cbn [status body]. unfold chat_error_body.
  split; [reflexivity|]. split; intro Hk; rewrite Hk.
  - destruct e as [|x e']; [discriminate Hk|reflexivity].
  - now rewrite andb_false_r.
Qed.

Lemma completion_failure_response_witness :
  authenticated (stormy_world (lit "API_KEY_INVALID")) (bearer (lit "token-a")) alice
  /\ fst (post_api_chat (stormy_world (lit "API_KEY_INVALID"))
            (bearer (lit "token-a"))
            (mkChatRequest (JStr (lit "hi")) JUndefined JUndefined)
            (fresh empty_store))
     = Returned
         (mkResponse 500
            (ErrorJson (lit "Invalid or missing Gemini API key. Please check your configuration.")
                       None)).
Proof.
  assert (Ha : authenticated (stormy_world (lit "API_KEY_INVALID"))
                 (bearer (lit "token-a")) alice)
    by (exists (lit "token-a"); split; reflexivity).
  split; [exact Ha|].
  destruct (post_api_chat (stormy_world (lit "API_KEY_INVALID"))
              (bearer (lit "token-a"))
              (mkChatRequest (JStr (lit "hi")) JUndefined JUndefined)
              (fresh empty_store)) as [[resp|e0] s'] eqn:Hrun.
  - assert (Hin : In (GenerateContent model (lit "hi")) (log s')).
    { pose proof Hrun as Hv. vm_compute in Hv. injection Hv as _ <-.
      vm_compute. right. right. now left. }
    destruct (@completion_failure_response
                (stormy_world (lit "API_KEY_INVALID")) (bearer (lit "token-a"))
                alice (mkChatRequest (JStr (lit "hi")) JUndefined JUndefined)
                empty_store resp s' model (lit "hi") (lit "API_KEY_INVALID")
                Ha Hrun Hin eq_refl)
      as (Hst & Hkey & _).
    specialize (Hkey eq_refl). destruct resp as [st b].
    cbn [status body] in Hst, Hkey. cbn [fst]. now subst.
  - vm_compute in Hrun. discriminate Hrun.
Defined.

(** ** A lookup that fails *)

Lemma getOrCreateConversation_lookup_fault w user cid title e s :
  find_fault w = Some e ->
  getOrCreateConversation w user cid title s
  = getOrCreateConversation w user JUndefined title s.
Proof.
  intro Hf. unfold getOrCreateConversation. rewrite !rethrow.
  cbn [truthy]. destruct (truthy cid); [|reflexivity].
  unfold bind at 1. unfold query at 1. unfold select_conversation.
  now rewrite Hf.
Qed.

(** X10: an error of the store while looking the conversation up is not
    reported.  The request runs exactly as if it had carried no
    conversation id, even when the conversation exists and belongs to the
    caller: a completed turn then lands in a newly created conversation,
    and the conversation that was asked for gets no message. *)
Theorem failed_lookup_starts_new_conversation w authorization user req e st :
  authenticated w authorization user ->
  find_fault w = Some e ->
  post_api_chat w authorization req (fresh st)
  = post_api_chat w authorization
      (mkChatRequest (prompt req) JUndefined (model_name req)) (fresh st)
  /\ forall resp s',
      post_api_chat w authorization req (fresh st) = (Returned resp, s') ->
      status resp = 200 ->
      exists r m,
        body resp = ChatJson r (assigned_id (create w)) m
        /\ ~ In (assigned_id (create w)) (map Conversation.id (conversations st))
        /\ forall id, id <> assigned_id (create w) ->
                      messages_of (db s') id = messages_of st id.
Proof.
  intros Hauth Hf.
  assert (Heq : chat w user req (fresh st)
                = chat w user (mkChatRequest (prompt req) JUndefined (model_name req))
                       (fresh st)).
  { unfold chat, try_catch. cbn [prompt conversation_id model_name].
    destruct (negb (truthy (prompt req))); [reflexivity|].
    destruct (prompt req) as [| |p|t text]; try reflexivity.
    rewrite (@bind_same_start _ _ _ _ _ _
               (@getOrCreateConversation_lookup_fault w user (conversation_id req)
                  (substring 0 50 p ++ lit "...") e (fresh st) Hf)).
    reflexivity. }
  unfold post_api_chat. rewrite !(verifyAuth_authenticated _ Hauth).
  split; [exact Heq|].
  intros resp s' Hrun Hst. rewrite Heq in Hrun.
  destruct (chat_completed _ _ _ _ Hrun Hst)
    as (p & c & s1 & history & r & _ & _ & Hc & _ & _ & Hdb & _ & Hresp).
  apply getOrCreateConversation_returned in Hc.
  cbn [conversation_id truthy fresh db log] in Hc.
  destruct Hc as [(Habs & _) | (_ & st1 & Hins & ->)]; [discriminate|].
  apply insert_conversation_data in Hins. destruct Hins as (Hrow & -> & Hnew).
  assert (Hid : Conversation.id c = assigned_id (create w)) by now rewrite Hrow.
  cbn zeta in Hdb. cbn [db conversations messages] in Hdb.
  eexists. eexists. split; [rewrite Hresp, Hid; reflexivity|].
  split; [now apply not_existsb_not_in|].
  intros id Hother.
  assert (Hm : messages (db s')
               = messages st
                   ++ [Message.mk (assigned_id (save_user w)) (Conversation.id c)
                         (lit "user") p (save_user_clock w);
                       Message.mk (assigned_id (save_assistant w)) (Conversation.id c)
                         (lit "assistant") r (save_assistant_clock w)]).
  { rewrite Hdb. destruct (List.length history =? 0); [|reflexivity].
    unfold update_title. now destruct (retitle_fault w). }
  unfold messages_of. rewrite Hm, filter_app. cbn [filter Message.conversation_id].
  rewrite Hid.
  assert (Hne : jstring_eqb (assigned_id (create w)) id = false).
  { destruct (jstring_eqb (assigned_id (create w)) id) eqn:E; [|reflexivity].
    apply jstring_eqb_eq in E. congruence. }
  rewrite Hne. apply app_nil_r.
Qed.

Lemma failed_lookup_starts_new_conversation_witness :
  exists resp s',
    post_api_chat
      (mkWorld two_users (Some (lit "timeout")) (mkInsertion None (lit "c-new"))
               (100%N, 100%N) None (mkInsertion None (lit "m-new-1")) 101%N
               (mkInsertion None (lit "m-new-2")) 102%N
               (fun _ _ => Data (lit "Fine.")) None)
      (bearer (lit "token-a"))
      (mkChatRequest (JStr (lit "how are you")) (JStr (lit "c1")) JUndefined)
      (fresh one_exchange) = (Returned resp, s')
    /\ status resp = 200
    /\ messages_of (db s') (lit "c1") = hi_hello.
Proof.
  eexists. eexists. split; [cbv; reflexivity|]. split; [reflexivity|].
  destruct (proj2 (@failed_lookup_starts_new_conversation
              (mkWorld two_users (Some (lit "timeout")) (mkInsertion None (lit "c-new"))
                       (100%N, 100%N) None (mkInsertion None (lit "m-new-1")) 101%N
                       (mkInsertion None (lit "m-new-2")) 102%N
                       (fun _ _ => Data (lit "Fine.")) None)
              (bearer (lit "token-a")) alice
              (mkChatRequest (JStr (lit "how are you")) (JStr (lit "c1")) JUndefined)
              (lit "timeout") one_exchange
              (ex_intro _ (lit "token-a") (conj eq_refl eq_refl)) eq_refl)
            _ _ eq_refl eq_refl)
    as (r & m & _ & _ & Hkeep).
  transitivity (messages_of one_exchange (lit "c1")); [|reflexivity].
  apply Hkeep. discriminate.
Defined.

(** ** Writes that stay when a later call fails *)

Lemma bind_run_returned (A B : Type) (m : M A) (k : A -> M B) s a s1 :
  m s = (Returned a, s1) -> bind m k s = k a s1.
Proof. unfold bind. now intros ->. Qed.

Lemma bind_run_thrown (A B : Type) (m : M A) (k : A -> M B) s e s1 :
  m s = (Thrown e, s1) -> bind m k s = (Thrown e, s1).
Proof. unfold bind. now intros ->. Qed.

Lemma not_in_not_existsb id (rows : list Conversation.t) :
  ~ In id (map Conversation.id rows) ->
  existsb (fun c => jstring_eqb (Conversation.id c) id) rows = false.
Proof.
  intro H. destruct (existsb _ _) eqn:E; [|reflexivity].
  apply existsb_id_true in E. destruct E as (c & Hin & <-).
  exfalso. apply H. now apply in_map.
Qed.

Lemma getOrCreateConversation_creates w user cid title s :
  truthy cid = false ->
  fault (create w) = None ->
  ~ In (assigned_id (create w)) (map Conversation.id (conversations (db s))) ->
  getOrCreateConversation w user cid title s
  = (Returned (Conversation.mk (assigned_id (create w)) user title
                 (fst (create_clock w)) (snd (create_clock w))),
     mkState
       (mkStore
          (conversations (db s)
             ++ [Conversation.mk (assigned_id (create w)) user title
                   (fst (create_clock w)) (snd (create_clock w))])
          (messages (db s)))
       (log s
          ++ [InsertedConversation
                (Conversation.mk (assigned_id (create w)) user title
                   (fst (create_clock w)) (snd (create_clock w)))])).
Proof.
  intros Ht Hf Hnew. unfold getOrCreateConversation. rewrite rethrow, Ht.
  unfold bind, mutate, insert_conversation, ret.
  now rewrite Hf, (not_in_not_existsb _ _ Hnew).
Qed.

(** X11: nothing is rolled back.  When a request without conversation id
    gets its conversation created and the fetch of the history then fails,
    the answer is 500 and the store is left with the new conversation,
    titled with the first 50 characters of the prompt and ["..."], and
    without any message in it. *)
Theorem failed_history_keeps_new_conversation
    w authorization user req p e st :
  authenticated w authorization user ->
  prompt req = JStr p ->
  p <> [] ->
  truthy (conversation_id req) = false ->
  fault (create w) = None ->
  ~ In (assigned_id (create w)) (map Conversation.id (conversations st)) ->
  history_fault w = Some e ->
  post_api_chat w authorization req (fresh st)
  = (Returned (mkResponse 500 (chat_error_body e)),
     mkState
       (mkStore
          (conversations st
             ++ [Conversation.mk (assigned_id (create w)) user
                   (firstn 50 p ++ lit "...")
                   (fst (create_clock w)) (snd (create_clock w))])
          (messages st))
       [InsertedConversation
          (Conversation.mk (assigned_id (create w)) user
             (firstn 50 p ++ lit "...")
             (fst (create_clock w)) (snd (create_clock w)))]).
Proof.
  intros Hauth Hp Hne Hcid Hf Hnew Hh.
  unfold post_api_chat. rewrite (verifyAuth_authenticated _ Hauth).
  unfold chat, try_catch. rewrite Hp.
  destruct p as [|x p']; [contradiction|].
  change (negb (truthy (JStr (x :: p')))) with false. cbv iota.
  pose proof (@getOrCreateConversation_creates w user (conversation_id req)
                (substring 0 50 (x :: p') ++ lit "...") (fresh st) Hcid Hf Hnew)
    as Hc.
  rewrite (@bind_run_returned _ _ _ _ _ _ _ Hc).
  erewrite bind_run_thrown
    by (rewrite getConversationHistory_run; unfold select_messages;
        rewrite Hh; reflexivity).
  unfold chat_error_body.
  destruct (truthy (JStr e) && includes e (lit "API_KEY"));
    rewrite substring_prefix; reflexivity.
Qed.

Lemma failed_history_keeps_new_conversation_witness :
  post_api_chat
    (mkWorld two_users None (mkInsertion None (lit "c-new")) (100%N, 100%N)
             (Some (lit "timeout")) (mkInsertion None (lit "m-new-1")) 101%N
             (mkInsertion None (lit "m-new-2")) 102%N
             (fun _ _ => Data (lit "Hello!")) None)
    (bearer (lit "token-a"))
    (mkChatRequest (JStr (lit "hi")) JUndefined JUndefined)
    (fresh empty_store)
  = (Returned (mkResponse 500
                 (ErrorJson (lit "Failed to generate response. Please try again.")
                            (Some (lit "timeout")))),
     mkState
       (mkStore [Conversation.mk (lit "c-new") alice (lit "hi...") 100%N 100%N] [])
       [InsertedConversation
          (Conversation.mk (lit "c-new") alice (lit "hi...") 100%N 100%N)]).
Proof.
  apply (@failed_history_keeps_new_conversation
           (mkWorld two_users None (mkInsertion None (lit "c-new")) (100%N, 100%N)
                    (Some (lit "timeout")) (mkInsertion None (lit "m-new-1")) 101%N
                    (mkInsertion None (lit "m-new-2")) 102%N
                    (fun _ _ => Data (lit "Hello!")) None)
           (bearer (lit "token-a")) alice
           (mkChatRequest (JStr (lit "hi")) JUndefined JUndefined)
           (lit "hi") (lit "timeout") empty_store
           (ex_intro _ (lit "token-a") (conj eq_refl eq_refl))
           eq_refl ltac:(discriminate) eq_refl eq_refl
           ltac:(intros []) eq_refl).
Defined.

Lemma jstring_eqb_eq_false (a b : jstring) : a <> b -> jstring_eqb a b = false.
Proof.
  intro H. destruct (jstring_eqb a b) eqn:E; [|reflexivity].
  apply jstring_eqb_eq in E. contradiction.
Qed.

(** ** Histories without a known role *)

(** X12: messages whose role is neither [user] nor [assistant] still count
    as history.  When the history is not empty and holds only such messages,
    the text sent is the frame with nothing between its first two blank
    lines, not the bare prompt. *)
Theorem context_of_unknown_roles (history : list Message.t) (prompt : jstring) :
  history <> [] ->
  (forall m, In m history ->
             Message.role m <> lit "user" /\ Message.role m <> lit "assistant") ->
  fullContext history prompt
  = lit "Previous conversation:" ++ nl ++ nl ++ nl
      ++ lit "Current message:" ++ nl ++ prompt ++ nl ++ nl
      ++ lit "Please respond remembering our previous conversation and maintain context.".
Proof.
  intros Hne Hroles.
  assert (Hnone : spec_rendered_turns history = []).
  { clear Hne. induction history as [|m rest IH]; [reflexivity|].
    simpl. unfold spec_rendered_line.
    destruct (Hroles m (or_introl eq_refl)) as [Hu Ha].
    apply jstring_eqb_eq_false in Hu, Ha. rewrite Hu, Ha.
    apply IH. intros m0 Hin. apply Hroles. now right. }
  unfold fullContext. destruct history as [|m rest]; [contradiction|].
  cbn [List.length Nat.ltb Nat.leb].
  now rewrite contextMessages_spec, slice_all_but_last, Hnone.
Qed.

Lemma context_of_unknown_roles_witness :
  fullContext [Message.mk (lit "m0") (lit "c1") (lit "system") (lit "be brief") 1%N]
              (lit "hi")
  = lit "Previous conversation:" ++ nl ++ nl ++ nl
      ++ lit "Current message:" ++ nl ++ lit "hi" ++ nl ++ nl
      ++ lit "Please respond remembering our previous conversation and maintain context.".
Proof.
  apply context_of_unknown_roles.
  - discriminate.
  - intros m [<-|[]]. split; discriminate.
Defined.

(** ** A Hoare logic for the handlers *)

Section Triples.

Variables A B : Type.

Lemma triple_ret (P : state -> Prop) (a : A) (Q : A -> state -> Prop) E :
  (forall s, P s -> Q a s) -> triple P (ret a) Q E.
Proof. intros H s Hs. now apply H. Qed.

Lemma triple_throw (P : state -> Prop) (e : jstring) (Q : A -> state -> Prop)
    (E : state -> Prop) :
  (forall s, P s -> E s) -> triple P (throw e) Q E.
Proof. intros H s Hs. now apply H. Qed.

Lemma triple_bind (P : state -> Prop) (m : M A) (R : A -> state -> Prop)
    (k : A -> M B) (Q : B -> state -> Prop) (E : state -> Prop) :
  triple P m R E ->
  (forall a, triple (R a) (k a) Q E) ->
  triple P (bind m k) Q E.
Proof.
  intros Hm Hk s Hs. unfold bind. specialize (Hm s Hs).
  destruct (m s) as [[a|e] s1]; [|exact Hm].
  now apply Hk.
Qed.

Lemma triple_try (P : state -> Prop) (m : M A) (handler : jstring -> M A)
    (Q : A -> state -> Prop) (R E : state -> Prop) :
  triple P m Q R ->
  (forall e, triple R (handler e) Q E) ->
  triple P (try_catch m handler) Q E.
Proof.
  intros Hm Hh s Hs. unfold try_catch. specialize (Hm s Hs).
  destruct (m s) as [[a|e] s1]; [exact Hm|].
  now apply Hh.
Qed.

Lemma triple_weaken (P P' : state -> Prop) (m : M A)
    (Q Q' : A -> state -> Prop) (E E' : state -> Prop) :
  triple P' m Q' E' ->
  (forall s, P s -> P' s) ->
  (forall a s, Q' a s -> Q a s) ->
  (forall s, E' s -> E s) ->
  triple P m Q E.
Proof.
  intros Hm HP HQ HE s Hs. specialize (Hm s (HP s Hs)).
  destruct (m s) as [[a|e] s1]; auto.
Qed.

End Triples.

(** ** What a chat request keeps *)

Lemma NoDup_snoc (X : Type) (l : list X) (x : X) :
  NoDup l -> ~ In x l -> NoDup (l ++ [x]).
Proof.
  intros Hl Hx. induction Hl as [|y l Hy Hl IH]; simpl.
  - constructor; [intros []|constructor].
  - constructor.
    + intro Hin. apply in_app_or in Hin. destruct Hin as [Hin|[<-|[]]].
      * now apply Hy.
      * apply Hx. now left.
    + apply IH. intro Hin. apply Hx. now right.
Qed.

Lemma NoDup_map_inj (X Y : Type) (f : X -> Y) (l : list X) (a b : X) :
  NoDup (map f l) -> In a l -> In b l -> f a = f b -> a = b.
Proof.
  induction l as [|x l IH]; intros Hnd Ha Hb Hf; [destruct Ha|].
  simpl in Hnd. inversion Hnd as [|? ? Hx Hl]; subst.
  destruct Ha as [<-|Ha], Hb as [<-|Hb].
  - reflexivity.
  - exfalso. apply Hx. rewrite Hf. now apply in_map.
  - exfalso. apply Hx. rewrite <- Hf. now apply in_map.
  - now apply IH.
Qed.

Lemma retitle_keeps_ids title id (rows : list Conversation.t) :
  map Conversation.id
      (map (fun c => if jstring_eqb (Conversation.id c) id
                     then set_title title c else c) rows)
  = map Conversation.id rows.
Proof.
  rewrite map_map. apply map_ext. intro c.
  now destruct (jstring_eqb (Conversation.id c) id).
Qed.

Lemma insert_message_fresh o st cid role content t row st' :
  insert_message o st cid role content t = (Data row, st') ->
  ~ In (assigned_id o) (map Message.id (messages st)).
Proof.
  unfold insert_message. destruct (fault o); [discriminate|].
  destruct (existsb _ _) eqn:E; [discriminate|].
  intros _ Hin. apply in_map_iff in Hin. destruct Hin as (m & Hid & Hin).
  assert (existsb (fun m0 => jstring_eqb (Message.id m0) (assigned_id o))
                  (messages st) = true).
  { apply existsb_exists. exists m. split; [exact Hin|]. now apply jstring_eqb_eq. }
  congruence.
Qed.

Lemma ids_spec (st : store) :
  referential_integrity st = true
  <-> forall m, In m (messages st) ->
                In (Message.conversation_id m)
                   (map Conversation.id (conversations st)).
Proof.
  rewrite referential_integrity_spec. split; intros H m Hin.
  - destruct (H m Hin) as (c & Hc & <-). now apply in_map.
  - apply H in Hin. apply in_map_iff in Hin. destruct Hin as (c & Hid & Hc).
    now exists c.
Qed.

Section Kept.

Variable user : jstring.
Variable st0 : store.

(** What holds of the store all along a chat request of [user] that started
    on [st0]. *)
Definition kept (s : state) : Prop :=
  well_formed (db s) /\ only_grows user st0 (db s).

(** The same, once the conversation [c] of the turn is known. *)
Definition kept_with (c : Conversation.t) (s : state) : Prop :=
  kept s /\ In c (conversations (db s)) /\ Conversation.user_id c = user.

Lemma kept_same_db s s' : db s' = db s -> kept s -> kept s'.
Proof. unfold kept. now intros ->. Qed.

Lemma kept_with_same_db c s s' : db s' = db s -> kept_with c s -> kept_with c s'.
Proof. unfold kept_with, kept. now intros ->. Qed.

Lemma kept_new_conversation s (row : Conversation.t) :
  kept s ->
  Conversation.user_id row = user ->
  ~ In (Conversation.id row) (map Conversation.id (conversations (db s))) ->
  kept_with row
    (mkState (mkStore (conversations (db s) ++ [row]) (messages (db s)))
             (log s ++ [InsertedConversation row])).
Proof.
  intros ((Hri & Hc & Hm) & (Hmsgs & (added & Hids) & Hothers)) Hu Hnew.
  unfold kept_with, kept, well_formed, only_grows, unique_conversation_ids,
    unique_message_ids. cbn [db conversations messages].
  repeat split.
  - apply ids_spec. cbn [conversations messages]. intros m Hin.
    rewrite map_app. apply in_or_app. left.
    now apply (proj1 (ids_spec (db s)) Hri).
  - rewrite map_app. now apply NoDup_snoc.
  - exact Hm.
  - exact Hmsgs.
  - exists (added ++ [Conversation.id row]).
    now rewrite map_app, Hids, <- app_assoc.
  - intros c Hin Hne. apply in_or_app. left. now apply Hothers.
  - apply in_or_app. right. now left.
  - exact Hu.
Qed.

Lemma kept_new_message c s (m : Message.t) :
  kept_with c s ->
  Message.conversation_id m = Conversation.id c ->
  ~ In (Message.id m) (map Message.id (messages (db s))) ->
  kept_with c
    (mkState (mkStore (conversations (db s)) (messages (db s) ++ [m]))
             (log s ++ [InsertedMessage m])).
Proof.
  intros (((Hri & Hc & Hm) & ((extra & Hmsgs) & Hids & Hothers)) & Hin & Hu)
         Hcid Hnew.
  unfold kept_with, kept, well_formed, only_grows, unique_conversation_ids,
    unique_message_ids. cbn [db conversations messages].
  repeat split; auto.
  - apply ids_spec. cbn [conversations messages]. intros m0 Hm0.
    apply in_app_or in Hm0. destruct Hm0 as [Hm0|[<-|[]]].
    + now apply (proj1 (ids_spec (db s)) Hri).
    + rewrite Hcid. now apply in_map.
  - rewrite map_app. now apply NoDup_snoc.
  - exists (extra ++ [m]). now rewrite Hmsgs, <- app_assoc.
Qed.

Lemma kept_retitled c s title :
  kept_with c s ->
  kept (mkState
          (mkStore
             (map (fun c0 => if jstring_eqb (Conversation.id c0) (Conversation.id c)
                             then set_title title c0 else c0)
                  (conversations (db s)))
             (messages (db s)))
          (log s ++ [UpdatedTitle (Conversation.id c) title])).
Proof.
  intros (((Hri & Hc & Hm) & (Hmsgs & (added & Hids) & Hothers)) & Hin & Hu).
  unfold kept, well_formed, only_grows, unique_conversation_ids,
    unique_message_ids. cbn [db conversations messages].
  rewrite retitle_keeps_ids.
  repeat split; auto.
  - apply ids_spec. cbn [conversations messages]. rewrite retitle_keeps_ids.
    now apply (proj1 (ids_spec (db s)) Hri).
  - now exists added.
  - intros c0 Hc0 Hne. specialize (Hothers c0 Hc0 Hne).
    apply in_map_iff. exists c0. split; [|exact Hothers].
    destruct (jstring_eqb (Conversation.id c0) (Conversation.id c)) eqn:E;
      [|reflexivity].
    apply jstring_eqb_eq in E. exfalso. apply Hne.
    now rewrite (NoDup_map_inj _ _ _ _ Hc Hothers Hin E).
Qed.

Lemma getOrCreateConversation_keeps w cid title :
  triple kept (getOrCreateConversation w user cid title) kept_with kept.
Proof.
  intros s Hs.
  destruct (getOrCreateConversation w user cid title s) as [[c|e] s'] eqn:Hrun.
  - apply getOrCreateConversation_returned in Hrun.
    destruct Hrun as [(_ & Hsel & ->) | (_ & st1 & Hins & ->)].
    + apply select_conversation_data in Hsel. destruct Hsel as (Hin & _ & Hu).
      unfold kept_with. auto.
    + apply insert_conversation_data in Hins. destruct Hins as (Hrow & -> & Hnew).
      apply kept_new_conversation; [exact Hs | now rewrite Hrow |].
      apply not_existsb_not_in. now rewrite Hrow.
  - apply getOrCreateConversation_thrown in Hrun. now subst.
Qed.

Lemma getConversationHistory_keeps w id limit (P : state -> Prop) :
  triple P (getConversationHistory w id limit) (fun _ => P) P.
Proof.
  intros s Hs. rewrite getConversationHistory_run.
  now destruct (select_messages _ _ _ _).
Qed.

Lemma saveMessage_keeps o now c role content :
  triple (kept_with c) (saveMessage o now (Conversation.id c) role content)
         (fun _ => kept_with c) (kept_with c).
Proof.
  intros s Hs.
  destruct (saveMessage o now (Conversation.id c) role content s)
    as [[m|e] s'] eqn:Hrun.
  - apply saveMessage_returned in Hrun. destruct Hrun as (Hm & Hins & ->).
    apply insert_message_fresh in Hins.
    apply kept_new_message; [exact Hs | now rewrite Hm | now rewrite Hm].
  - apply saveMessage_thrown in Hrun. now subst.
Qed.

Lemma generateContent_keeps w text c :
  triple (kept_with c) (generateContent w text) (fun _ => kept_with c) kept.
Proof.
  intros s Hs. unfold generateContent.
  destruct (completion w model text).
  - now apply (kept_with_same_db (s := s)).
  - apply (kept_same_db (s := s)); [reflexivity|]. apply Hs.
Qed.

(** One step of the turn on conversation [c]: its triple, weakened to
    throw into [kept]. *)
Ltac chat_step c lemma :=
  eapply triple_bind with (R := fun _ => kept_with c);
  [ eapply triple_weaken;
    [ apply lemma
    | let H := fresh in intros ? H; exact H
    | let H := fresh in intros ? ? H; exact H
    | let H := fresh in intros ? H; apply H ]
  | cbv beta ].

(** The handler of the chat route keeps [kept]. *)
Lemma chat_keeps w req : triple kept (chat w user req) (fun _ => kept) kept.
Proof.
  unfold chat.
  apply triple_try with (R := kept);
    [|intro e; destruct (truthy (JStr e) && includes e (lit "API_KEY"));
      now apply triple_ret].
  destruct (negb (truthy (prompt req))); [now apply triple_ret|].
  destruct (prompt req) as [| |p|t text]; try now apply triple_throw.
  eapply triple_bind; [apply getOrCreateConversation_keeps|]. intro c.
  chat_step c (getConversationHistory_keeps w (Conversation.id c) 20 (kept_with c)).
  intro history.
  chat_step c saveMessage_keeps. intro mu.
  chat_step c generateContent_keeps. intro r.
  chat_step c saveMessage_keeps. intro ma.
  eapply triple_bind with (R := fun _ => kept).
  - destruct (List.length history =? 0).
    + intros s Hs. unfold mutate, update_title.
      destruct (retitle_fault w).
      * apply (kept_same_db (s := s)); [reflexivity|]. apply Hs.
      * now apply kept_retitled.
    + apply triple_ret. intros s Hs. apply Hs.
  - intros _. now apply triple_ret.
Qed.

End Kept.

Lemma verifyAuth_cases w authorization next s r s' :
  verifyAuth w authorization next s = (r, s') ->
  s' = s
  \/ exists user, authenticated w authorization user /\ next user s = (r, s').
Proof.
  unfold verifyAuth. destruct authorization as [h|]; [|intros [= _ <-]; now left].
  destruct (negb (truthy (JStr h)) || negb (startsWith h (lit "Bearer "))) eqn:Hh;
    [intros [= _ <-]; now left|].
  apply orb_false_iff in Hh. destruct Hh as [_ Hs].
  apply negb_false_iff in Hs. apply startsWith_prefix in Hs.
  cbv zeta. unfold substring_from.
  destruct (getUser w (skipn 7 h)) as [user| |] eqn:Hu;
    try (intros [= _ <-]; now left).
  intro Hrun. right. exists user. split; [|exact Hrun].
  exists (skipn 7 h). split; [|exact Hu]. unfold bearer. f_equal. exact Hs.
Qed.

Lemma only_grows_refl user st : only_grows user st st.
Proof.
  repeat split.
  - exists []. now rewrite app_nil_r.
  - exists []. now rewrite app_nil_r.
  - auto.
Qed.

Lemma chat_kept w user req st resp s' :
  well_formed st ->
  chat w user req (fresh st) = (Returned resp, s') ->
  well_formed (db s') /\ only_grows user st (db s').
Proof.
  intros Hwf Hrun.
  assert (Hstart : kept user st (fresh st))
    by (split; [exact Hwf | apply only_grows_refl]).
  pose proof (@chat_keeps user st w req (fresh st) Hstart) as H.
  rewrite Hrun in H. exact H.
Qed.

(** X13: a chat request keeps the store well formed: whatever the request
    and however it ends, conversation ids and message ids stay unique and
    every stored message still belongs to a stored conversation. *)
Theorem chat_keeps_well_formed w authorization req st resp s' :
  well_formed st ->
  post_api_chat w authorization req (fresh st) = (Returned resp, s') ->
  well_formed (db s').
Proof.
  intros Hwf Hrun. unfold post_api_chat in Hrun.
  apply verifyAuth_cases in Hrun.
  destruct Hrun as [-> | (user & _ & Hrun)]; [exact Hwf|].
  now apply (chat_kept _ _ _ Hwf Hrun).
Qed.

Lemma well_formed_one_exchange : well_formed one_exchange.
Proof.
  split; [reflexivity|]. split.
  - repeat constructor. intros [].
  - repeat constructor; simpl; intuition discriminate.
Qed.

Lemma chat_keeps_well_formed_witness :
  well_formed one_exchange
  /\ well_formed
       (db (snd (post_api_chat (calm_world (lit "Fine.")) (bearer (lit "token-a"))
                   (mkChatRequest (JStr (lit "how are you")) (JStr (lit "c1"))
                                  JUndefined)
                   (fresh one_exchange)))).
Proof.
  split; [exact well_formed_one_exchange|].
  refine (@chat_keeps_well_formed
            (calm_world (lit "Fine.")) (bearer (lit "token-a"))
            (mkChatRequest (JStr (lit "how are you")) (JStr (lit "c1")) JUndefined)
            one_exchange _ _ well_formed_one_exchange _).
  vm_compute. reflexivity.
Defined.

(** X14: a chat request only ever appends.  However it ends, the messages
    table afterwards is the one before followed by new rows, and the
    conversations carry the ids they carried, in the same order, followed by
    new ones: no message is changed or removed, no conversation is removed
    or given another id. *)
Theorem chat_only_appends w authorization req st resp s' :
  well_formed st ->
  post_api_chat w authorization req (fresh st) = (Returned resp, s') ->
  (exists extra, messages (db s') = messages st ++ extra)
  /\ (exists added,
         map Conversation.id (conversations (db s'))
         = map Conversation.id (conversations st) ++ added).
Proof.
  intros Hwf Hrun. unfold post_api_chat in Hrun.
  apply verifyAuth_cases in Hrun.
  destruct Hrun as [-> | (user & _ & Hrun)].
  - cbn [fresh db]. split; exists []; now rewrite app_nil_r.
  - destruct (chat_kept _ _ _ Hwf Hrun) as (_ & Hm & Hc & _). auto.
Qed.

Lemma chat_only_appends_witness :
  well_formed one_exchange
  /\ exists extra,
      messages
        (db (snd (post_api_chat (stormy_world (lit "quota exceeded"))
                    (bearer (lit "token-a"))
                    (mkChatRequest (JStr (lit "how are you")) (JStr (lit "c1"))
                                   JUndefined)
                    (fresh one_exchange))))
      = hi_hello ++ extra.
Proof.
  split; [exact well_formed_one_exchange|].
  refine (proj1 (@chat_only_appends
                   (stormy_world (lit "quota exceeded")) (bearer (lit "token-a"))
                   (mkChatRequest (JStr (lit "how are you")) (JStr (lit "c1"))
                                  JUndefined)
                   one_exchange _ _ well_formed_one_exchange _)).
  vm_compute. reflexivity.
Defined.

(** ** One request after another *)









Lemma deleted_rows_spec cascade user id st :
  forall c,
    In c (conversations (snd (delete_conversation None cascade st id user)))
    <-> In c (conversations st)
        /\ ~ (Conversation.id c = id /\ Conversation.user_id c = user).
Proof.
  intro c. unfold delete_conversation. cbn [snd conversations].
  rewrite filter_In, negb_true_iff, <- doomed_spec.
  destruct (jstring_eqb (Conversation.id c) id
            && jstring_eqb (Conversation.user_id c) user); intuition congruence.
Qed.

(** X18: deleting, then listing.  After a delete that the store carried
    out, the conversations route lists for the same caller exactly the
    caller's conversations that carry another id. *)
Theorem delete_then_list w cascade authorization user id st resp s' :
  authenticated w authorization user ->
  delete_api_conversation w None cascade authorization id (fresh st)
  = (Returned resp, s') ->
  exists rows,
    get_api_conversations w None authorization (fresh (db s'))
    = (Returned (mkRoute 200 (ConversationsJson rows)), fresh (db s'))
    /\ forall c, In c rows <->
                 In c (conversations st)
                 /\ Conversation.user_id c = user
                 /\ Conversation.id c <> id.
Proof.
  intros Hauth Hdel.
  pose proof (@deleted_rows_spec cascade user id st)
    as Hconv.
  rewrite (delete_run None cascade id st Hauth) in Hdel.
  injection Hdel as _ <-. cbn [fresh db].
  rewrite (@get_conversations_run w None authorization user _ Hauth).
  eexists. split; [reflexivity|].
  intro c. split.
  - intro Hin.
    apply (Permutation_in _ (Permutation_sym (order_by_updated_at_desc_perm _)))
      in Hin.
    unfold conversations_of in Hin. apply filter_In in Hin.
    destruct Hin as [Hin Hu]. apply jstring_eqb_eq in Hu.
    apply Hconv in Hin. destruct Hin as [Hin Hnot].
    split; [exact Hin|]. split; [exact Hu|]. intro Hid. now apply Hnot.
  - intros (Hin & Hu & Hid).
    apply (Permutation_in _ (order_by_updated_at_desc_perm _)).
    unfold conversations_of. apply filter_In. split.
    + apply Hconv. split; [exact Hin|]. intros [Habs _]. now apply Hid.
    + now apply jstring_eqb_eq.
Qed.

Lemma delete_then_list_witness :
  authenticated (calm_world []) (bearer (lit "token-a")) alice
  /\ exists resp s',
      delete_api_conversation (calm_world []) None false (bearer (lit "token-a"))
        (lit "c1") (fresh one_exchange) = (Returned resp, s')
      /\ get_api_conversations (calm_world []) None (bearer (lit "token-a"))
           (fresh (db s'))
         = (Returned (mkRoute 200 (ConversationsJson [])), fresh (db s')).
Proof.
  assert (Ha : authenticated (calm_world []) (bearer (lit "token-a")) alice)
    by (exists (lit "token-a"); split; reflexivity).
  split; [exact Ha|].
  eexists. eexists. split; [cbv; reflexivity|].
  destruct (@delete_then_list (calm_world []) false (bearer (lit "token-a")) alice
              (lit "c1") one_exchange _ _ Ha eq_refl)
    as (rows & Hrun & Hrows).
  destruct rows as [|c rows]; [exact Hrun|].
  exfalso. destruct (proj1 (Hrows c) (or_introl eq_refl)) as ([<-|[]] & _ & Hid).
  now apply Hid.
Defined.

(** ** The messages route when the store fails *)

(** X19: the messages route never changes the store: whoever calls it and
    whatever the store answers, the state afterwards is the state before.
    When the select fails for an authenticated caller, the answer is 500
    with the fixed text ["Failed to fetch messages"] and nothing of the
    store's error. *)
Theorem messages_route_reads_only w authorization id s :
  exists resp,
    get_api_conversation_messages w authorization id s = (Returned resp, s)
    /\ forall user e,
        authenticated w authorization user ->
        history_fault w = Some e ->
        resp = mkResponse 500 (ErrorJson (lit "Failed to fetch messages") None).
Proof.
  assert (Hhandler : forall s0, exists resp,
    try_catch
      (messages <- getConversationHistory w id 20 ;;
       ret (mkResponse 200 (MessagesJson messages)))
      (fun _ => ret (mkResponse 500
                       (ErrorJson (lit "Failed to fetch messages") None))) s0
    = (Returned resp, s0)
    /\ forall e, history_fault w = Some e ->
                 resp = mkResponse 500
                          (ErrorJson (lit "Failed to fetch messages") None)).
  { intro s0. unfold try_catch, bind. rewrite getConversationHistory_run.
    unfold select_messages. destruct (history_fault w) as [e|].
    - eexists. split; [reflexivity|]. reflexivity.
    - eexists. split; [reflexivity|]. discriminate. }
  unfold get_api_conversation_messages.
  destruct (verifyAuth w authorization
              (fun _ =>
                 try_catch
                   (messages <- getConversationHistory w id 20 ;;
                    ret (mkResponse 200 (MessagesJson messages)))
                   (fun _ => ret (mkResponse 500
                                    (ErrorJson (lit "Failed to fetch messages")
                                               None)))) s)
    as [r s'] eqn:Hrun.
  assert (Hsame : s' = s /\ exists resp, r = Returned resp).
  { apply verifyAuth_cases in Hrun as Hc.
    destruct Hc as [-> | (user & _ & Hh)].
    - split; [reflexivity|].
      unfold verifyAuth in Hrun.
      destruct authorization as [h|]; [|injection Hrun as <-; eauto].
      destruct (negb (truthy (JStr h)) || negb (startsWith h (lit "Bearer ")));
        [injection Hrun as <-; eauto|].
      cbv zeta in Hrun.
      destruct (getUser w (substring_from 7 h)) as [user| |];
        try (injection Hrun as <-; eauto).
      destruct (Hhandler s) as (resp & Hr & _). rewrite Hr in Hrun.
      injection Hrun as <-. eauto.
    - destruct (Hhandler s) as (resp & Hr & _). rewrite Hr in Hh.
      injection Hh as <- <-. eauto. }
  destruct Hsame as (-> & resp & ->).
  exists resp. split; [reflexivity|].
  intros user e Hauth Hf.
  rewrite (verifyAuth_authenticated _ Hauth) in Hrun.
  destruct (Hhandler s) as (resp0 & Hr & Hfail). rewrite Hr in Hrun.
  injection Hrun as <-. now apply (Hfail e).
Qed.

Lemma messages_route_reads_only_witness :
  authenticated
    (mkWorld two_users None (mkInsertion None (lit "c-new")) (100%N, 100%N)
             (Some (lit "connection reset")) (mkInsertion None (lit "m-new-1")) 101%N
             (mkInsertion None (lit "m-new-2")) 102%N
             (fun _ _ => Data []) None)
    (bearer (lit "token-a")) alice
  /\ get_api_conversation_messages
       (mkWorld two_users None (mkInsertion None (lit "c-new")) (100%N, 100%N)
                (Some (lit "connection reset")) (mkInsertion None (lit "m-new-1"))
                101%N (mkInsertion None (lit "m-new-2")) 102%N
                (fun _ _ => Data []) None)
       (bearer (lit "token-a")) (lit "c1") (fresh one_exchange)
     = (Returned (mkResponse 500 (ErrorJson (lit "Failed to fetch messages") None)),
        fresh one_exchange).
Proof.
  assert (Ha : authenticated
                 (mkWorld two_users None (mkInsertion None (lit "c-new"))
                          (100%N, 100%N) (Some (lit "connection reset"))
                          (mkInsertion None (lit "m-new-1")) 101%N
                          (mkInsertion None (lit "m-new-2")) 102%N
                          (fun _ _ => Data []) None)
                 (bearer (lit "token-a")) alice)
    by (exists (lit "token-a"); split; reflexivity).
  split; [exact Ha|].
  destruct (@messages_route_reads_only
              (mkWorld two_users None (mkInsertion None (lit "c-new"))
                       (100%N, 100%N) (Some (lit "connection reset"))
                       (mkInsertion None (lit "m-new-1")) 101%N
                       (mkInsertion None (lit "m-new-2")) 102%N
                       (fun _ _ => Data []) None)
              (bearer (lit "token-a")) (lit "c1") (fresh one_exchange))
    as (resp & Hrun & Hfail).
  rewrite Hrun. now rewrite (Hfail alice (lit "connection reset") Ha eq_refl).
Defined.

(** ** The model a turn reports *)

(** X20: every completion call of a chat request goes to the fixed model
    [gemini-2.0-flash-exp], whatever model the request names; and a
    completed turn reports as [model_used] the [model_name] of the request,
    or ["gemini-2.0-flash-exp"] when the request has none. *)
Theorem reported_model_is_the_requested_one
    w authorization user req st resp s' :
  authenticated w authorization user ->
  post_api_chat w authorization req (fresh st) = (Returned resp, s') ->
  (forall m text, In (GenerateContent m text) (log s') ->
                  m = lit "gemini-2.0-flash-exp")
  /\ (status resp = 200 ->
      exists r id,
        body resp
        = ChatJson r id
            match model_name req with
            | JUndefined => JStr (lit "gemini-2.0-flash-exp")
            | v => v
            end).
Proof.
  intros Hauth Hrun. unfold post_api_chat in Hrun.
  rewrite (verifyAuth_authenticated _ Hauth) in Hrun.
  exact (@model_used_in_general _ _ _ _ _ _ Hrun).
Qed.

Lemma reported_model_is_the_requested_one_witness :
  exists resp s',
    post_api_chat (calm_world (lit "Hello!")) (bearer (lit "token-a"))
      (mkChatRequest (JStr (lit "hi")) JUndefined (JStr (lit "gemini-1.5-flash")))
      (fresh empty_store) = (Returned resp, s')
    /\ status resp = 200
    /\ (forall m text, In (GenerateContent m text) (log s') ->
                       m = lit "gemini-2.0-flash-exp")
    /\ exists r id, body resp = ChatJson r id (JStr (lit "gemini-1.5-flash")).
Proof.
  eexists. eexists. split; [cbv; reflexivity|]. split; [reflexivity|].
  destruct (@reported_model_is_the_requested_one
              (calm_world (lit "Hello!")) (bearer (lit "token-a")) alice
              (mkChatRequest (JStr (lit "hi")) JUndefined
                             (JStr (lit "gemini-1.5-flash")))
              empty_store _ _
              (ex_intro _ (lit "token-a") (conj eq_refl eq_refl)) eq_refl)
    as (Hmodel & Hreport).
  split; [exact Hmodel|]. exact (Hreport eq_refl).
Defined.

(** ** How much a chat request writes *)

Lemma creation_title_short (p : jstring) :
  List.length (substring 0 50 p ++ lit "...") <= 53.
Proof.
  rewrite substring_prefix, length_app.
  pose proof (firstn_le_length 50 p). change (List.length (lit "...")) with 3. lia.
Qed.

Lemma first_turn_title_short (p : jstring) :
  List.length (substring 0 50 p
               ++ (if 50 <? List.length p then lit "..." else [])) <= 53.
Proof.
  rewrite substring_prefix, length_app.
  pose proof (firstn_le_length 50 p).
  destruct (50 <? List.length p).
  - change (List.length (lit "...")) with 3. lia.
  - change (List.length (@nil N)) with 0. lia.
Qed.

Section Bounds.

Variable st0 : store.

Definition short_title (c : Conversation.t) : Prop :=
  List.length (Conversation.title c) <= 53.

(** At most [nc] conversations and [nm] messages more than in [st0], and
    titles of at most 53 code units if [st0] had only such titles. *)
Definition within (nc nm : nat) (s : state) : Prop :=
  List.length (conversations (db s)) <= List.length (conversations st0) + nc
  /\ List.length (messages (db s)) <= List.length (messages st0) + nm
  /\ (Forall short_title (conversations st0) ->
      Forall short_title (conversations (db s))).

Lemma within_weaken nc nm nc' nm' s :
  nc <= nc' -> nm <= nm' -> within nc nm s -> within nc' nm' s.
Proof. unfold within. intros Hc Hm (H1 & H2 & H3). repeat split; auto; lia. Qed.

Lemma within_same_db nc nm s s' : db s' = db s -> within nc nm s -> within nc nm s'.
Proof. unfold within. now intros ->. Qed.

Lemma getOrCreateConversation_within w user cid title :
  List.length title <= 53 ->
  triple (within 0 0) (getOrCreateConversation w user cid title)
         (fun _ => within 1 0) (within 0 0).
Proof.
  intros Ht s Hs.
  destruct (getOrCreateConversation w user cid title s) as [[c|e] s'] eqn:Hrun.
  - apply getOrCreateConversation_returned in Hrun.
    destruct Hrun as [(_ & _ & ->) | (_ & st1 & Hins & ->)].
    + now apply (within_weaken (nc := 0) (nm := 0)); auto.
    + apply insert_conversation_data in Hins. destruct Hins as (Hrow & -> & _).
      destruct Hs as (H1 & H2 & H3). unfold within.
      cbn [db conversations messages]. rewrite length_app. cbn [List.length].
      repeat split; try lia.
      intro H0. apply Forall_app. split; [now apply H3|].
      constructor; [|constructor]. unfold short_title. now rewrite Hrow.
  - apply getOrCreateConversation_thrown in Hrun. now subst.
Qed.

Lemma saveMessage_within o now cid role content nc nm :
  triple (within nc nm) (saveMessage o now cid role content)
         (fun _ => within nc (S nm)) (within nc nm).
Proof.
  intros s Hs.
  destruct (saveMessage o now cid role content s) as [[m|e] s'] eqn:Hrun.
  - apply saveMessage_returned in Hrun. destruct Hrun as (_ & _ & ->).
    destruct Hs as (H1 & H2 & H3). unfold within.
    cbn [db conversations messages]. rewrite length_app. cbn [List.length].
    repeat split; auto; lia.
  - apply saveMessage_thrown in Hrun. now subst.
Qed.

Lemma generateContent_within w text nc nm :
  triple (within nc nm) (generateContent w text)
         (fun _ => within nc nm) (within nc nm).
Proof.
  intros s Hs. unfold generateContent.
  destruct (completion w model text); now apply (within_same_db (s := s)).
Qed.

Lemma update_title_within fault id title nc nm s :
  List.length title <= 53 ->
  within nc nm s ->
  forall r db',
    update_title fault (db s) id title = (r, db') ->
    forall l, within nc nm (mkState db' l).
Proof.
  intros Ht (H1 & H2 & H3) r db' Hup l. unfold update_title in Hup.
  destruct fault as [e|]; injection Hup as _ <-; unfold within;
    cbn [db conversations messages].
  - auto.
  - rewrite length_map. repeat split; auto.
    intro H0. specialize (H3 H0). apply Forall_map.
    eapply Forall_impl; [|exact H3].
    intros c Hc. destruct (jstring_eqb (Conversation.id c) id); [|exact Hc].
    exact Ht.
Qed.

(** One step of the turn, weakened to throw within one conversation and two
    messages. *)
Ltac bounded_step nc nm lemma :=
  eapply triple_bind with (R := fun _ => within nc nm);
  [ eapply triple_weaken;
    [ apply lemma
    | let H := fresh in intros ? H; exact H
    | let H := fresh in intros ? ? H; exact H
    | let H := fresh in
      intros ? H; revert H; apply within_weaken; repeat constructor ]
  | cbv beta ].

Lemma chat_within w user req :
  triple (within 0 0) (chat w user req) (fun _ => within 1 2) (within 1 2).
Proof.
  unfold chat.
  apply triple_try with (R := within 1 2);
    [|intro e; destruct (truthy (JStr e) && includes e (lit "API_KEY"));
      now apply triple_ret].
  destruct (negb (truthy (prompt req))).
  { apply triple_ret. intro s. apply within_weaken; repeat constructor. }
  destruct (prompt req) as [| |p|t text];
    try (apply triple_throw; intro s; apply within_weaken; repeat constructor).
  bounded_step 1 0 (@getOrCreateConversation_within w user (conversation_id req)
                      _ (creation_title_short p)).
  intro c.
  bounded_step 1 0 (getConversationHistory_keeps w (Conversation.id c) 20
                      (within 1 0)).
  intro history.
  bounded_step 1 1 saveMessage_within. intro mu.
  bounded_step 1 1 generateContent_within. intro r.
  bounded_step 1 2 saveMessage_within. intro ma.
  eapply triple_bind with (R := fun _ => within 1 2).
  - destruct (List.length history =? 0).
    + intros s Hs. unfold mutate.
      destruct (update_title _ _ _ _) as [[[]|e] db'] eqn:Hup;
        exact (@update_title_within _ _ _ _ _ _ (first_turn_title_short p)
                 Hs _ _ Hup _).
    + apply triple_ret. intros s Hs. exact Hs.
  - intros _. now apply triple_ret.
Qed.

End Bounds.

Lemma chat_route_within w authorization req st resp s' :
  post_api_chat w authorization req (fresh st) = (Returned resp, s') ->
  within st 1 2 s'.
Proof.
  intro Hrun. unfold post_api_chat in Hrun.
  assert (Hstart : within st 0 0 (fresh st)).
  { unfold within. cbn [fresh db]. repeat split; auto; lia. }
  apply verifyAuth_cases in Hrun.
  destruct Hrun as [-> | (user & _ & Hrun)].
  - revert Hstart. apply within_weaken; repeat constructor.
  - pose proof (@chat_within st w user req (fresh st) Hstart) as H.
    now rewrite Hrun in H.
Qed.

(** X21: however a chat request ends, the store holds afterwards at most one
    conversation and at most two messages more than before. *)
Theorem chat_writes_are_bounded w authorization req st resp s' :
  post_api_chat w authorization req (fresh st) = (Returned resp, s') ->
  List.length (conversations (db s')) <= List.length (conversations st) + 1
  /\ List.length (messages (db s')) <= List.length (messages st) + 2.
Proof.
  intro Hrun. destruct (@chat_route_within _ _ _ _ _ _ Hrun) as (H1 & H2 & _).
  auto.
Qed.

Lemma chat_writes_are_bounded_witness :
  List.length
    (messages
       (db (snd (post_api_chat (calm_world (lit "Fine.")) (bearer (lit "token-a"))
                   (mkChatRequest (JStr (lit "how are you")) (JStr (lit "c1"))
                                  JUndefined)
                   (fresh one_exchange)))))
  <= List.length (messages one_exchange) + 2.
Proof.
  refine (proj2 (@chat_writes_are_bounded
                   (calm_world (lit "Fine.")) (bearer (lit "token-a"))
                   (mkChatRequest (JStr (lit "how are you")) (JStr (lit "c1"))
                                  JUndefined)
                   one_exchange _ _ _)).
  vm_compute. reflexivity.
Defined.

(** X22: titles stay short.  If every stored conversation has a title of at
    most 53 code units, so has every conversation after a chat request,
    whatever the length of the prompt and however the request ends. *)
Theorem chat_keeps_titles_short w authorization req st resp s' :
  Forall (fun c => List.length (Conversation.title c) <= 53) (conversations st) ->
  post_api_chat w authorization req (fresh st) = (Returned resp, s') ->
  Forall (fun c => List.length (Conversation.title c) <= 53)
         (conversations (db s')).
Proof.
  intros Hshort Hrun.
  destruct (@chat_route_within _ _ _ _ _ _ Hrun) as (_ & _ & H).
  now apply H.
Qed.

Lemma chat_keeps_titles_short_witness :
  Forall (fun c => List.length (Conversation.title c) <= 53)
         (conversations one_exchange)
  /\ Forall (fun c => List.length (Conversation.title c) <= 53)
       (conversations
          (db (snd (post_api_chat (calm_world (lit "Hello!"))
                      (bearer (lit "token-a"))
                      (mkChatRequest (JStr (repeat 97%N 200)) JUndefined JUndefined)
                      (fresh one_exchange))))).
Proof.
  assert (H : Forall (fun c => List.length (Conversation.title c) <= 53)
                     (conversations one_exchange))
    by (repeat constructor; vm_compute; lia).
  split; [exact H|].
  refine (@chat_keeps_titles_short
            (calm_world (lit "Hello!")) (bearer (lit "token-a"))
            (mkChatRequest (JStr (repeat 97%N 200)) JUndefined JUndefined)
            one_exchange _ _ H _).
  vm_compute. reflexivity.
Defined.

(** * Turns that go through *)

Lemma saveMessage_run o now cid role content s :
  saveMessage o now cid role content s
  = match insert_message o (db s) cid role content now with
    | (Data m, db') => (Returned m, mkState db' (log s ++ [InsertedMessage m]))
    | (Error e, db') => (Thrown e, mkState db' (log s))
    end.
Proof.
  unfold saveMessage. rewrite rethrow. unfold bind, mutate, throw, ret.
  now destruct (insert_message o (db s) cid role content now) as [[m|e] db'].
Qed.

Lemma saveMessage_accepted o now cid role content s :
  fault o = None ->
  ~ In (assigned_id o) (map Message.id (messages (db s))) ->
  saveMessage o now cid role content s
  = (Returned (Message.mk (assigned_id o) cid role content now),
     mkState
       (mkStore (conversations (db s))
                (messages (db s)
                   ++ [Message.mk (assigned_id o) cid role content now]))
       (log s ++ [InsertedMessage (Message.mk (assigned_id o) cid role content now)])).
Proof.
  intros Hf Hnew. rewrite saveMessage_run. unfold insert_message. rewrite Hf.
  assert (Hfree : existsb (fun m => jstring_eqb (Message.id m) (assigned_id o))
                          (messages (db s)) = false).
  { destruct (existsb _ _) eqn:E; [|reflexivity].
    apply existsb_exists in E. destruct E as (m & Hin & Hid).
    apply jstring_eqb_eq in Hid. exfalso. apply Hnew. rewrite <- Hid.
    now apply in_map. }
  now rewrite Hfree.
Qed.

Lemma generateContent_run w text r s :
  completion w model text = Data r ->
  generateContent w text s
  = (Returned r, mkState (db s) (log s ++ [GenerateContent model text])).
Proof. intro H. unfold generateContent. now rewrite H. Qed.

Lemma getConversationHistory_ok w id limit s :
  history_fault w = None ->
  getConversationHistory w id limit s
  = (Returned (firstn limit (order_by_created_at (messages_of (db s) id))), s).
Proof.
  intro H. rewrite getConversationHistory_run. unfold select_messages.
  now rewrite H.
Qed.

Lemma getOrCreateConversation_resolves w user cid title c s :
  truthy cid = true ->
  select_conversation (find_fault w) (db s) (to_text cid) user = Data c ->
  getOrCreateConversation w user cid title s = (Returned c, s).
Proof.
  intros Ht Hsel. unfold getOrCreateConversation. rewrite rethrow, Ht.
  unfold bind at 1. unfold query at 1. now rewrite Hsel.
Qed.

(** When the conversation is there and every later call succeeds, the turn
    is answered 200 with the reply. *)
Lemma chat_turn_completes w user req p c s1 r st :
  prompt req = JStr p ->
  p <> [] ->
  getOrCreateConversation w user (conversation_id req)
    (substring 0 50 p ++ lit "...") (fresh st) = (Returned c, s1) ->
  history_fault w = None ->
  fault (save_user w) = None ->
  ~ In (assigned_id (save_user w)) (map Message.id (messages (db s1))) ->
  completion w model
    (fullContext
       (firstn 20 (order_by_created_at (messages_of (db s1) (Conversation.id c))))
       p) = Data r ->
  fault (save_assistant w) = None ->
  ~ In (assigned_id (save_assistant w))
       (assigned_id (save_user w) :: map Message.id (messages (db s1))) ->
  exists s',
    chat w user req (fresh st)
    = (Returned
         (mkResponse 200
            (ChatJson r (Conversation.id c)
               match model_name req with
               | JUndefined => JStr (lit "gemini-2.0-flash-exp")
               | v => v
               end)),
       s').
Proof.
  intros Hp Hne Hc Hh Hfu Hnu Hr Hfa Hna.
  unfold chat, try_catch. rewrite Hp.
  destruct p as [|x p']; [contradiction|].
  change (negb (truthy (JStr (x :: p')))) with false. cbv iota.
  rewrite (@bind_run_returned _ _ _ _ _ _ _ Hc).
  erewrite bind_run_returned by (now apply getConversationHistory_ok).
  erewrite bind_run_returned by (now apply saveMessage_accepted).
  erewrite bind_run_returned by (apply generateContent_run; exact Hr).
  erewrite bind_run_returned.
  2:{ apply saveMessage_accepted; [exact Hfa|].
      cbn [db messages]. rewrite map_app. cbn [map Message.id].
      intro Hin. apply in_app_or in Hin. apply Hna.
      destruct Hin as [Hin|[Hin|[]]]; [now right | now left]. }
  destruct (List.length _ =? 0).
  - unfold bind, mutate, update_title. cbn [db].
    destruct (retitle_fault w); eexists; reflexivity.
  - unfold bind, ret. eexists. reflexivity.
Qed.

(** ** A title update the store refuses *)

(** What a completed first turn has left when the store refused the title
    update. *)
Lemma title_kept_when_update_refused
    w authorization user req p e st resp s' :
  authenticated w authorization user ->
  prompt req = JStr p ->
  conversation_id req = JUndefined ->
  referential_integrity st = true ->
  retitle_fault w = Some e ->
  post_api_chat w authorization req (fresh st) = (Returned resp, s') ->
  status resp = 200 ->
  exists r,
    let id := assigned_id (create w) in
    body resp = ChatJson r id
                  match model_name req with
                  | JUndefined => JStr (lit "gemini-2.0-flash-exp")
                  | v => v
                  end
    /\ conversations (db s')
       = conversations st
           ++ [Conversation.mk id user (firstn 50 p ++ lit "...")
                 (fst (create_clock w)) (snd (create_clock w))]
    /\ messages (db s')
       = messages st
           ++ [Message.mk (assigned_id (save_user w)) id (lit "user") p
                          (save_user_clock w);
               Message.mk (assigned_id (save_assistant w)) id (lit "assistant") r
                          (save_assistant_clock w)]
    /\ forall t, ~ In (UpdatedTitle id t) (log s').
Proof.
  intros Hauth Hp Hcid Hri Hretitle Hrun Hst.
  unfold post_api_chat in Hrun.
  rewrite (verifyAuth_authenticated _ Hauth) in Hrun.
  destruct (chat_completed _ _ _ _ Hrun Hst)
    as (p' & c & s1 & history & r & Hp' & _ & Hc & Hh & Hr & Hdb & Hlog & Hresp).
  rewrite Hp in Hp'. injection Hp' as <-.
  apply getOrCreateConversation_returned in Hc.
  rewrite Hcid in Hc. cbn [truthy] in Hc.
  destruct Hc as [(Habs & _) | (_ & st1 & Hins & ->)]; [discriminate|].
  cbn [fresh db] in Hins. apply insert_conversation_data in Hins.
  destruct Hins as (Hrow & -> & Hnew).
  assert (Hid : Conversation.id c = assigned_id (create w)) by now rewrite Hrow.
  cbn zeta in Hdb, Hlog. cbn [db log fresh conversations messages app] in Hdb, Hlog.
  rewrite Hretitle in Hdb, Hlog.
  assert (Hdb' : db s' = mkStore (conversations st ++ [c])
                           (messages st
                              ++ [Message.mk (assigned_id (save_user w))
                                    (Conversation.id c) (lit "user") p
                                    (save_user_clock w);
                                  Message.mk (assigned_id (save_assistant w))
                                    (Conversation.id c) (lit "assistant") r
                                    (save_assistant_clock w)])).
  { rewrite Hdb. now destruct (List.length history =? 0). }
  exists r. cbn zeta. rewrite Hdb', Hresp, Hid. cbn [conversations messages body].
  split; [reflexivity|]. split.
  - rewrite Hrow. now rewrite substring_prefix.
  - split; [reflexivity|].
    intros t Hin. rewrite Hlog in Hin.
    destruct (List.length history =? 0); cbn [In app] in Hin;
      intuition discriminate.
Qed.

(** X9: the outcome of the title update is not looked at.  When the store
    accepts the inserts of a first turn, the completion service answers and
    the store then refuses the title update, the turn is still answered 200
    with the reply, both messages are stored, and the new conversation
    keeps the title it was created with: the first 50 characters of the
    prompt followed by ["..."], whatever the prompt's length. *)
Theorem unapplied_title_update_is_ignored
    w authorization user req p e r st :
  authenticated w authorization user ->
  prompt req = JStr p ->
  p <> [] ->
  conversation_id req = JUndefined ->
  referential_integrity st = true ->
  fault (create w) = None ->
  ~ In (assigned_id (create w)) (map Conversation.id (conversations st)) ->
  history_fault w = None ->
  fault (save_user w) = None ->
  ~ In (assigned_id (save_user w)) (map Message.id (messages st)) ->
  completion w model p = Data r ->
  fault (save_assistant w) = None ->
  ~ In (assigned_id (save_assistant w))
       (assigned_id (save_user w) :: map Message.id (messages st)) ->
  retitle_fault w = Some e ->
  exists s',
    let id := assigned_id (create w) in
    post_api_chat w authorization req (fresh st)
    = (Returned
         (mkResponse 200
            (ChatJson r id
               match model_name req with
               | JUndefined => JStr (lit "gemini-2.0-flash-exp")
               | v => v
               end)),
       s')
    /\ conversations (db s')
       = conversations st
           ++ [Conversation.mk id user (firstn 50 p ++ lit "...")
                 (fst (create_clock w)) (snd (create_clock w))]
    /\ messages (db s')
       = messages st
           ++ [Message.mk (assigned_id (save_user w)) id (lit "user") p
                          (save_user_clock w);
               Message.mk (assigned_id (save_assistant w)) id (lit "assistant") r
                          (save_assistant_clock w)]
    /\ forall t, ~ In (UpdatedTitle id t) (log s').
Proof.
  intros Hauth Hp Hne Hcid Hri Hfc Hnc Hh Hfu Hnu Hr Hfa Hna Hretitle.
  assert (Hfalsy : truthy (conversation_id req) = false) by now rewrite Hcid.
  pose proof (@getOrCreateConversation_creates w user (conversation_id req)
                (substring 0 50 p ++ lit "...") (fresh st) Hfalsy Hfc Hnc) as Hc.
  assert (Hnone : messages_of st (assigned_id (create w)) = [])
    by (apply (no_messages_of_unknown _ _ Hri); now apply not_in_not_existsb).
  destruct (@chat_turn_completes w user req p _ _ r st Hp Hne Hc Hh Hfu Hnu)
    as (s' & Hrun).
  - cbn [fresh db messages conversations Conversation.id].
    unfold messages_of in *. cbn [messages]. rewrite Hnone. exact Hr.
  - exact Hfa.
  - exact Hna.
  - cbn [Conversation.id] in Hrun.
    assert (Hroute : post_api_chat w authorization req (fresh st)
                     = (Returned
                          (mkResponse 200
                             (ChatJson r (assigned_id (create w))
                                match model_name req with
                                | JUndefined => JStr (lit "gemini-2.0-flash-exp")
                                | v => v
                                end)),
                        s')).
    { unfold post_api_chat. now rewrite (verifyAuth_authenticated _ Hauth). }
    destruct (@title_kept_when_update_refused w authorization user req p e st
                _ s' Hauth Hp Hcid Hri Hretitle Hroute eq_refl)
      as (r' & Hbody & Hconv & Hmsgs & Hlog).
    cbn [body] in Hbody. injection Hbody as <-.
    exists s'. cbn zeta. auto.
Qed.

Lemma unapplied_title_update_is_ignored_witness :
  exists s',
    post_api_chat
      (mkWorld two_users None (mkInsertion None (lit "c-new")) (100%N, 100%N)
               None (mkInsertion None (lit "m-new-1")) 101%N
               (mkInsertion None (lit "m-new-2")) 102%N
               (fun _ _ => Data (lit "Hello!"))
               (Some (lit "permission denied")))
      (bearer (lit "token-a"))
      (mkChatRequest (JStr (lit "hi")) JUndefined JUndefined)
      (fresh empty_store)
    = (Returned (mkResponse 200
                   (ChatJson (lit "Hello!") (lit "c-new")
                             (JStr (lit "gemini-2.0-flash-exp")))),
       s')
    /\ conversations (db s')
       = [Conversation.mk (lit "c-new") alice (lit "hi...") 100%N 100%N].
Proof.
  destruct (@unapplied_title_update_is_ignored
              (mkWorld two_users None (mkInsertion None (lit "c-new")) (100%N, 100%N)
                       None (mkInsertion None (lit "m-new-1")) 101%N
                       (mkInsertion None (lit "m-new-2")) 102%N
                       (fun _ _ => Data (lit "Hello!"))
                       (Some (lit "permission denied")))
              (bearer (lit "token-a")) alice
              (mkChatRequest (JStr (lit "hi")) JUndefined JUndefined)
              (lit "hi") (lit "permission denied") (lit "Hello!") empty_store
              (ex_intro _ (lit "token-a") (conj eq_refl eq_refl))
              eq_refl ltac:(discriminate) eq_refl eq_refl
              eq_refl ltac:(intros []) eq_refl
              eq_refl ltac:(intros []) eq_refl
              eq_refl ltac:(intros [H|[]]; discriminate H) eq_refl)
    as (s' & Hrun & Hconv & _).
  exists s'. split; [exact Hrun | exact Hconv].
Defined.

(** ** The conversations of the other users *)

Section Others.

Variable user : jstring.
Variable st0 : store.

(** Ids are unique, and every conversation [st0] held for another user is
    still there as it was. *)
Definition others_kept (s : state) : Prop :=
  unique_conversation_ids (db s)
  /\ forall c, In c (conversations st0) ->
               Conversation.user_id c <> user -> In c (conversations (db s)).

Definition others_kept_with (c : Conversation.t) (s : state) : Prop :=
  others_kept s /\ In c (conversations (db s)) /\ Conversation.user_id c = user.

Lemma others_kept_same_conversations s s' :
  conversations (db s') = conversations (db s) -> others_kept s -> others_kept s'.
Proof. unfold others_kept, unique_conversation_ids. now intros ->. Qed.

Lemma others_kept_with_same_conversations c s s' :
  conversations (db s') = conversations (db s) ->
  others_kept_with c s -> others_kept_with c s'.
Proof.
  unfold others_kept_with, others_kept, unique_conversation_ids. now intros ->.
Qed.

Lemma getOrCreateConversation_others w cid title :
  triple others_kept (getOrCreateConversation w user cid title)
         others_kept_with others_kept.
Proof.
  intros s Hs.
  destruct (getOrCreateConversation w user cid title s) as [[c|e] s'] eqn:Hrun.
  - apply getOrCreateConversation_returned in Hrun.
    destruct Hrun as [(_ & Hsel & ->) | (_ & st1 & Hins & ->)].
    + apply select_conversation_data in Hsel. destruct Hsel as (Hin & _ & Hu).
      unfold others_kept_with. auto.
    + apply insert_conversation_data in Hins. destruct Hins as (Hrow & -> & Hnew).
      destruct Hs as (Hids & Hothers).
      unfold others_kept_with, others_kept, unique_conversation_ids.
      cbn [db conversations]. repeat split.
      * rewrite map_app. apply NoDup_snoc; [exact Hids|].
        cbn [map]. apply not_existsb_not_in. now rewrite Hrow.
      * intros c0 Hc0 Hne. apply in_or_app. left. now apply Hothers.
      * apply in_or_app. right. now left.
      * now rewrite Hrow.
  - apply getOrCreateConversation_thrown in Hrun. now subst.
Qed.

Lemma saveMessage_others o now cid role content c :
  triple (others_kept_with c) (saveMessage o now cid role content)
         (fun _ => others_kept_with c) (others_kept_with c).
Proof.
  intros s Hs.
  destruct (saveMessage o now cid role content s) as [[m|e] s'] eqn:Hrun.
  - apply saveMessage_returned in Hrun. destruct Hrun as (_ & _ & ->).
    now apply (others_kept_with_same_conversations (s := s)).
  - apply saveMessage_thrown in Hrun. now subst.
Qed.

Lemma generateContent_others w text c :
  triple (others_kept_with c) (generateContent w text)
         (fun _ => others_kept_with c) (others_kept_with c).
Proof.
  intros s Hs. unfold generateContent.
  destruct (completion w model text);
    now apply (others_kept_with_same_conversations (s := s)).
Qed.

Lemma retitle_others c title s l :
  others_kept_with c s ->
  others_kept
    (mkState
       (mkStore
          (map (fun c0 => if jstring_eqb (Conversation.id c0) (Conversation.id c)
                          then set_title title c0 else c0)
               (conversations (db s)))
          (messages (db s)))
       l).
Proof.
  intros ((Hids & Hothers) & Hin & Hu).
  unfold others_kept, unique_conversation_ids. cbn [db conversations].
  rewrite retitle_keeps_ids. split; [exact Hids|].
  intros c0 Hc0 Hne. specialize (Hothers c0 Hc0 Hne).
  apply in_map_iff. exists c0. split; [|exact Hothers].
  destruct (jstring_eqb (Conversation.id c0) (Conversation.id c)) eqn:E;
    [|reflexivity].
  apply jstring_eqb_eq in E. exfalso. apply Hne.
  now rewrite (NoDup_map_inj _ _ _ _ Hids Hothers Hin E).
Qed.

Lemma chat_others w req :
  triple others_kept (chat w user req) (fun _ => others_kept) others_kept.
Proof.
  unfold chat.
  apply triple_try with (R := others_kept);
    [|intro e; destruct (truthy (JStr e) && includes e (lit "API_KEY"));
      now apply triple_ret].
  destruct (negb (truthy (prompt req))); [now apply triple_ret|].
  destruct (prompt req) as [| |p|t text]; try now apply triple_throw.
  eapply triple_bind; [apply getOrCreateConversation_others|]. intro c.
  eapply triple_bind with (R := fun _ => others_kept_with c).
  { eapply triple_weaken;
      [apply (getConversationHistory_keeps w (Conversation.id c) 20
                (others_kept_with c))
      | auto | cbv beta; auto | intros s Hs; apply Hs]. }
  cbv beta. intro history.
  eapply triple_bind with (R := fun _ => others_kept_with c).
  { eapply triple_weaken;
      [apply saveMessage_others with (c := c) | auto | cbv beta; auto | intros s Hs; apply Hs]. }
  cbv beta. intro mu.
  eapply triple_bind with (R := fun _ => others_kept_with c).
  { eapply triple_weaken;
      [apply generateContent_others with (c := c) | auto | cbv beta; auto
      | intros s Hs; apply Hs]. }
  cbv beta. intro r.
  eapply triple_bind with (R := fun _ => others_kept_with c).
  { eapply triple_weaken;
      [apply saveMessage_others with (c := c) | auto | cbv beta; auto | intros s Hs; apply Hs]. }
  cbv beta. intro ma.
  eapply triple_bind with (R := fun _ => others_kept).
  - destruct (List.length history =? 0).
    + intros s Hs. unfold mutate, update_title.
      destruct (retitle_fault w).
      * apply (others_kept_same_conversations (s := s)); [reflexivity|]. apply Hs.
      * now apply retitle_others.
    + apply triple_ret. intros s Hs. apply Hs.
  - intros _. now apply triple_ret.
Qed.

End Others.

(** X15: on a store with unique conversation ids, a chat request never
    touches a conversation of another user.  Whatever conversation id the
    caller sends and however the request ends, every conversation stored
    under a different user id is in the store afterwards exactly as it was,
    title included. *)
Theorem chat_leaves_other_users_alone
    w authorization user req st resp s' :
  unique_conversation_ids st ->
  authenticated w authorization user ->
  post_api_chat w authorization req (fresh st) = (Returned resp, s') ->
  forall c, In c (conversations st) ->
            Conversation.user_id c <> user ->
            In c (conversations (db s')).
Proof.
  intros Hids Hauth Hrun. unfold post_api_chat in Hrun.
  rewrite (verifyAuth_authenticated _ Hauth) in Hrun.
  assert (Hstart : others_kept user st (fresh st)) by (split; auto).
  pose proof (@chat_others user st w req (fresh st) Hstart) as H.
  rewrite Hrun in H. apply H.
Qed.

Lemma chat_leaves_other_users_alone_witness :
  unique_conversation_ids
    (mkStore [Conversation.mk (lit "c1") alice (lit "hi...") 9%N 9%N]
             (hi_hello
                ++ [Message.mk (lit "m9") (lit "gone") (lit "user") (lit "old") 1%N]))
  /\ authenticated (calm_world (lit "Hello!")) (bearer (lit "token-b")) bob
  /\ In (Conversation.mk (lit "c1") alice (lit "hi...") 9%N 9%N)
        (conversations
           (db (snd (post_api_chat (calm_world (lit "Hello!"))
                       (bearer (lit "token-b"))
                       (mkChatRequest (JStr (lit "mine now")) (JStr (lit "c1"))
                                      JUndefined)
                       (fresh
                          (mkStore
                             [Conversation.mk (lit "c1") alice (lit "hi...") 9%N 9%N]
                             (hi_hello
                                ++ [Message.mk (lit "m9") (lit "gone") (lit "user")
                                               (lit "old") 1%N]))))))).
Proof.
  assert (Hids : unique_conversation_ids
                   (mkStore [Conversation.mk (lit "c1") alice (lit "hi...") 9%N 9%N]
                            (hi_hello
                               ++ [Message.mk (lit "m9") (lit "gone") (lit "user")
                                              (lit "old") 1%N])))
    by (repeat constructor; intros []).
  assert (Hb : authenticated (calm_world (lit "Hello!")) (bearer (lit "token-b")) bob)
    by (exists (lit "token-b"); split; reflexivity).
  split; [exact Hids|]. split; [exact Hb|].
  refine (@chat_leaves_other_users_alone
            (calm_world (lit "Hello!")) (bearer (lit "token-b")) bob
            (mkChatRequest (JStr (lit "mine now")) (JStr (lit "c1")) JUndefined)
            _ _ _ Hids Hb _
            (Conversation.mk (lit "c1") alice (lit "hi...") 9%N 9%N) _ _).
  - vm_compute. reflexivity.
  - now left.
  - discriminate.
Defined.

(** * What a request is sure to do *)

(** ** A conversation id that does not resolve: the fallback creates *)

Section Created.

Variable row : Conversation.t.

(** The request began by committing the conversation [row], and a
    conversation with its id and owner is in the store. *)
Definition created (s : state) : Prop :=
  (exists later, log s = InsertedConversation row :: later)
  /\ exists c', In c' (conversations (db s))
                /\ Conversation.id c' = Conversation.id row
                /\ Conversation.user_id c' = Conversation.user_id row.

Lemma created_later s s' more :
  conversations (db s') = conversations (db s) ->
  log s' = log s ++ more ->
  created s -> created s'.
Proof.
  intros Hc Hl ((later & Hlog) & Hrow). split.
  - exists (later ++ more). now rewrite Hl, Hlog.
  - now rewrite Hc.
Qed.

Lemma saveMessage_created o now cid role content :
  triple created (saveMessage o now cid role content) (fun _ => created) created.
Proof.
  intros s Hs.
  destruct (saveMessage o now cid role content s) as [[m|e] s'] eqn:Hrun.
  - apply saveMessage_returned in Hrun. destruct Hrun as (_ & _ & ->).
    now apply (@created_later s _ [InsertedMessage m]).
  - apply saveMessage_thrown in Hrun. now subst.
Qed.

Lemma generateContent_created w text :
  triple created (generateContent w text) (fun _ => created) created.
Proof.
  intros s Hs. unfold generateContent.
  destruct (completion w model text);
    now apply (@created_later s _ [GenerateContent model text]).
Qed.

Lemma retitle_created fault id title :
  triple created
         (mutate (fun d => update_title fault d id title)
                 (fun _ => UpdatedTitle id title))
         (fun _ => created) created.
Proof.
  intros s ((later & Hlog) & (c' & Hin & Hid & Hu)).
  unfold mutate, update_title. destruct fault as [e|].
  - split; [now exists later|]. now exists c'.
  - split.
    + exists (later ++ [UpdatedTitle id title]). cbn [log]. now rewrite Hlog.
    + cbn [db conversations].
      exists (if jstring_eqb (Conversation.id c') id then set_title title c' else c').
      split; [|now destruct (jstring_eqb (Conversation.id c') id)].
      apply in_map_iff. now exists c'.
Qed.

Lemma chat_created w user req p c s1 st :
  prompt req = JStr p ->
  p <> [] ->
  getOrCreateConversation w user (conversation_id req)
    (substring 0 50 p ++ lit "...") (fresh st) = (Returned c, s1) ->
  created s1 ->
  exists resp s', chat w user req (fresh st) = (Returned resp, s') /\ created s'.
Proof.
  intros Hp Hne Hc Hs1.
  assert (Ht : triple (fun s => s = fresh st) (chat w user req)
                      (fun _ => created) created).
  { unfold chat.
    apply triple_try with (R := created);
      [|intro e; destruct (truthy (JStr e) && includes e (lit "API_KEY"));
        now apply triple_ret].
    rewrite Hp. destruct p as [|x p']; [contradiction|].
    change (negb (truthy (JStr (x :: p')))) with false. cbv iota.
    eapply triple_bind with (R := fun _ => created).
    { intros s ->. now rewrite Hc. }
    cbv beta. intro c0.
    eapply triple_bind with (R := fun _ => created).
    { apply (getConversationHistory_keeps w (Conversation.id c0) 20 created). }
    cbv beta. intro history.
    eapply triple_bind with (R := fun _ => created);
      [apply saveMessage_created|]. cbv beta. intro mu.
    eapply triple_bind with (R := fun _ => created);
      [apply generateContent_created|]. cbv beta. intro r.
    eapply triple_bind with (R := fun _ => created);
      [apply saveMessage_created|]. cbv beta. intro ma.
    eapply triple_bind with (R := fun _ => created).
    - destruct (List.length history =? 0).
      + apply retitle_created.
      + now apply triple_ret.
    - intros _. now apply triple_ret. }
  destruct (chat_always_answers w user req (fresh st)) as (resp & s' & Hrun).
  exists resp, s'. split; [exact Hrun|].
  specialize (Ht (fresh st) eq_refl). now rewrite Hrun in Ht.
Qed.

End Created.

(** C5: when no conversation of the store carries the supplied id and
    belongs to the caller (the id is unknown, or its conversation is someone
    else's), the chat request runs exactly as the same request without a
    conversation id: same response, same store, same effects.  It does not
    fail on the id: with a non-empty prompt and a store that accepts the
    insert, the request begins by committing a new conversation for the
    caller, under the id the store assigns, and goes on with the turn; when
    the later calls succeed as well it is answered 200 with the reply and
    that id. *)
Theorem unresolved_id_falls_back w authorization user req st :
  authenticated w authorization user ->
  (forall c, In c (conversations st) ->
             Conversation.id c = to_text (conversation_id req) ->
             Conversation.user_id c <> user) ->
  post_api_chat w authorization req (fresh st)
  = post_api_chat w authorization
      (mkChatRequest (prompt req) JUndefined (model_name req)) (fresh st)
  /\ (forall resp s',
      post_api_chat w authorization req (fresh st) = (Returned resp, s') ->
      status resp = 200 ->
      exists row later r m,
        log s' = InsertedConversation row :: later
        /\ Conversation.user_id row = user
        /\ ~ In (Conversation.id row) (map Conversation.id (conversations st))
        /\ List.length (conversations (db s')) = S (List.length (conversations st))
        /\ body resp = ChatJson r (Conversation.id row) m)
  /\ (forall p,
      prompt req = JStr p ->
      p <> [] ->
      fault (create w) = None ->
      ~ In (assigned_id (create w)) (map Conversation.id (conversations st)) ->
      exists resp s' later c',
        post_api_chat w authorization req (fresh st) = (Returned resp, s')
        /\ log s'
           = InsertedConversation
               (Conversation.mk (assigned_id (create w)) user
                  (firstn 50 p ++ lit "...")
                  (fst (create_clock w)) (snd (create_clock w)))
             :: later
        /\ In c' (conversations (db s'))
        /\ Conversation.id c' = assigned_id (create w)
        /\ Conversation.user_id c' = user
        /\ (history_fault w = None ->
            fault (save_user w) = None ->
            ~ In (assigned_id (save_user w)) (map Message.id (messages st)) ->
            fault (save_assistant w) = None ->
            ~ In (assigned_id (save_assistant w))
                 (assigned_id (save_user w) :: map Message.id (messages st)) ->
            forall r,
              completion w model
                (fullContext
                   (firstn 20
                      (order_by_created_at
                         (messages_of st (assigned_id (create w)))))
                   p) = Data r ->
              resp = mkResponse 200
                       (ChatJson r (assigned_id (create w))
                          match model_name req with
                          | JUndefined => JStr (lit "gemini-2.0-flash-exp")
                          | v => v
                          end))).
Proof.
  intros Hauth Hnone.
  assert (Heq : chat w user req (fresh st)
                = chat w user (mkChatRequest (prompt req) JUndefined (model_name req))
                       (fresh st)).
  { unfold chat, try_catch. cbn [prompt conversation_id model_name].
    destruct (negb (truthy (prompt req))); [reflexivity|].
    destruct (prompt req) as [| |p|t text]; try reflexivity.
    rewrite (@bind_same_start _ _ _ _ _ _
               (@getOrCreateConversation_unresolved w user (conversation_id req)
                  (substring 0 50 p ++ lit "...") (fresh st) Hnone)).
    reflexivity. }
  unfold post_api_chat. rewrite !(verifyAuth_authenticated _ Hauth).
  split; [exact Heq|]. split.
  - intros resp s' Hrun Hst. rewrite Heq in Hrun.
    destruct (chat_completed _ _ _ _ Hrun Hst)
      as (p & c & s1 & history & r & _ & _ & Hc & _ & _ & Hdb & Hlog & Hresp).
    apply getOrCreateConversation_returned in Hc.
    cbn [conversation_id truthy fresh db log] in Hc.
    destruct Hc as [(Habs & _) | (_ & st1 & Hins & ->)]; [discriminate|].
    apply insert_conversation_data in Hins. destruct Hins as (Hrow & -> & Hnew).
    cbn zeta in Hdb, Hlog. cbn [db log conversations messages app] in Hdb, Hlog.
    exists c. eexists. exists r. eexists. repeat split.
    + exact Hlog.
    + now rewrite Hrow.
    + apply not_existsb_not_in. now rewrite Hrow.
    + rewrite Hdb. destruct (List.length history =? 0).
      * unfold update_title. destruct (retitle_fault w);
          cbn [snd conversations];
          rewrite ?length_map, length_app; simpl; lia.
      * cbn [conversations]. rewrite length_app. simpl. lia.
    + rewrite Hresp. reflexivity.
  - intros p Hp Hne Hfc Hnew.
    pose proof (@getOrCreateConversation_creates w user JUndefined
                  (substring 0 50 p ++ lit "...") (fresh st) eq_refl Hfc Hnew)
      as Hc.
    rewrite <- (@getOrCreateConversation_unresolved w user (conversation_id req)
                  (substring 0 50 p ++ lit "...") (fresh st) Hnone) in Hc.
    rewrite substring_prefix in Hc at 2 3 4.
    cbn [fresh db log conversations messages app] in Hc.
    match type of Hc with
    | _ = (Returned ?row, ?s1) =>
        assert (Hcreated : created row s1)
    end.
    { split.
      - now exists [].
      - eexists. split; [apply in_or_app; right; now left|]. split; reflexivity. }
    destruct (@chat_created _ _ _ _ _ _ _ _ Hp Hne Hc Hcreated)
      as (resp & s' & Hrun & (later & Hlog) & (c' & Hin & Hid & Hu)).
    exists resp, s', later, c'.
    split; [exact Hrun|]. split; [exact Hlog|]. split; [exact Hin|].
    split; [exact Hid|]. split; [exact Hu|].
    intros Hh Hfu Hnu Hfa Hna r Hr.
    destruct (@chat_turn_completes w user req p _ _ r st Hp Hne Hc Hh Hfu Hnu)
      as (s'' & Hok); [exact Hr | exact Hfa | exact Hna |].
    rewrite Hok in Hrun. injection Hrun as <- _. reflexivity.
Qed.

Lemma unresolved_id_falls_back_witness :
  authenticated (calm_world (lit "Hello!")) (bearer (lit "token-b")) bob
  /\ post_api_chat (calm_world (lit "Hello!")) (bearer (lit "token-b"))
       (mkChatRequest (JStr (lit "hello")) (JStr (lit "c1")) JUndefined)
       (fresh one_exchange)
     = post_api_chat (calm_world (lit "Hello!")) (bearer (lit "token-b"))
         (mkChatRequest (JStr (lit "hello")) JUndefined JUndefined)
         (fresh one_exchange)
  /\ exists s' later,
      post_api_chat (calm_world (lit "Hello!")) (bearer (lit "token-b"))
        (mkChatRequest (JStr (lit "hello")) (JStr (lit "c1")) JUndefined)
        (fresh one_exchange)
      = (Returned (mkResponse 200
                     (ChatJson (lit "Hello!") (lit "c-new")
                               (JStr (lit "gemini-2.0-flash-exp")))),
         s')
      /\ log s'
         = InsertedConversation
             (Conversation.mk (lit "c-new") bob (lit "hello...") 100%N 100%N)
           :: later.
Proof.
  assert (Ha : authenticated (calm_world (lit "Hello!"))
                 (bearer (lit "token-b")) bob)
    by (exists (lit "token-b"); split; reflexivity).
  split; [exact Ha|].
  assert (Hforeign : forall c,
             In c (conversations one_exchange) ->
             Conversation.id c
             = to_text (conversation_id
                          (mkChatRequest (JStr (lit "hello")) (JStr (lit "c1"))
                                         JUndefined)) ->
             Conversation.user_id c <> bob)
    by (intros c [<-|[]] _; discriminate).
  destruct (@unresolved_id_falls_back
              (calm_world (lit "Hello!")) (bearer (lit "token-b")) bob
              (mkChatRequest (JStr (lit "hello")) (JStr (lit "c1")) JUndefined)
              one_exchange Ha Hforeign)
    as (Heq & _ & Hcreates).
  split; [exact Heq|].
  destruct (Hcreates (lit "hello") eq_refl ltac:(discriminate) eq_refl
              ltac:(intros [H|[]]; discriminate H))
    as (resp & s' & later & c' & Hrun & Hlog & _ & _ & _ & Hdone).
  exists s', later. split; [|exact Hlog].
  rewrite Hrun. f_equal. f_equal.
  apply (Hdone eq_refl eq_refl
           ltac:(intros [H|[H|[]]]; discriminate H) eq_refl
           ltac:(intros [H|[H|[H|[]]]]; discriminate H)
           (lit "Hello!") eq_refl).
Defined.

(** ** A conversation that resolves: the completion call is made *)

Section Called.

Variable call : event.

Definition called (s : state) : Prop := In call (log s).

Lemma saveMessage_called o now cid role content :
  triple called (saveMessage o now cid role content) (fun _ => called) called.
Proof.
  intros s Hs.
  destruct (saveMessage o now cid role content s) as [[m|e] s'] eqn:Hrun.
  - apply saveMessage_returned in Hrun. destruct Hrun as (_ & _ & ->).
    apply in_or_app. now left.
  - apply saveMessage_thrown in Hrun. now subst.
Qed.

Lemma retitle_called fault id title :
  triple called
         (mutate (fun d => update_title fault d id title)
                 (fun _ => UpdatedTitle id title))
         (fun _ => called) called.
Proof.
  intros s Hs. unfold mutate, update_title, called.
  destruct fault as [e|]; cbn [fst snd log]; [exact Hs|].
  apply in_or_app. now left.
Qed.

End Called.

Lemma chat_calls_completion w user req p c st :
  prompt req = JStr p ->
  p <> [] ->
  truthy (conversation_id req) = true ->
  select_conversation (find_fault w) st (to_text (conversation_id req)) user
  = Data c ->
  history_fault w = None ->
  fault (save_user w) = None ->
  ~ In (assigned_id (save_user w)) (map Message.id (messages st)) ->
  exists resp s',
    chat w user req (fresh st) = (Returned resp, s')
    /\ In (GenerateContent model
             (fullContext
                (firstn 20
                   (order_by_created_at (messages_of st (Conversation.id c))))
                p))
          (log s').
Proof.
  intros Hp Hne Hcid Hsel Hh Hfu Hnu.
  set (window := firstn 20
                   (order_by_created_at (messages_of st (Conversation.id c)))).
  set (call := GenerateContent model (fullContext window p)).
  assert (Ht : triple (fun s => s = fresh st) (chat w user req)
                      (fun _ => called call) (called call)).
  { unfold chat.
    apply triple_try with (R := called call);
      [|intro e; destruct (truthy (JStr e) && includes e (lit "API_KEY"));
        now apply triple_ret].
    rewrite Hp. destruct p as [|x p']; [contradiction|].
    change (negb (truthy (JStr (x :: p')))) with false. cbv iota.
    eapply triple_bind with (R := fun c' s => c' = c /\ s = fresh st).
    { intros s ->.
      rewrite (@getOrCreateConversation_resolves w user (conversation_id req)
                 _ c (fresh st) Hcid Hsel).
      now split. }
    cbv beta. intro c0.
    eapply triple_bind with (R := fun h s => h = window /\ s = fresh st).
    { intros s (-> & ->).
      rewrite (@getConversationHistory_ok w _ _ (fresh st) Hh).
      now split. }
    cbv beta. intro history.
    eapply triple_bind with (R := fun _ _ => history = window).
    { intros s (Hwin & ->).
      now rewrite (@saveMessage_accepted (save_user w) _ _ _ _ (fresh st) Hfu Hnu). }
    cbv beta. intro mu.
    eapply triple_bind with (R := fun _ => called call).
    { intros s ->. unfold generateContent, called.
      destruct (completion w model (fullContext window (x :: p')));
        cbn [log]; apply in_or_app; right; now left. }
    cbv beta. intro r.
    eapply triple_bind with (R := fun _ => called call);
      [apply saveMessage_called|]. cbv beta. intro ma.
    eapply triple_bind with (R := fun _ => called call).
    - destruct (List.length history =? 0).
      + apply retitle_called.
      + now apply triple_ret.
    - intros _. now apply triple_ret. }
  destruct (chat_always_answers w user req (fresh st)) as (resp & s' & Hrun).
  exists resp, s'. split; [exact Hrun|].
  specialize (Ht (fresh st) eq_refl). now rewrite Hrun in Ht.
Qed.

(** C10: when a conversation holds more than 20 messages, the history is the
    first 20 of its messages in ascending timestamp order: every message
    left out is at least as recent as every message kept.  That same window
    is what the messages route returns, and it is what a chat turn on the
    conversation sends to the completion service: a turn of the owner with a
    non-empty prompt, on a store that answers the history query and accepts
    the prompt, makes the completion call with the text assembled from that
    window and the prompt, and no chat request on the conversation makes a
    completion call with any other text. *)
Theorem history_is_the_twenty_oldest st id :
  20 < List.length (messages_of st id) ->
  let window := firstn 20 (order_by_created_at (messages_of st id)) in
  let excluded := skipn 20 (order_by_created_at (messages_of st id)) in
  List.length window = 20
  /\ excluded <> []
  /\ Permutation (window ++ excluded) (messages_of st id)
  /\ oldest_first window
  /\ (forall a b, In a window -> In b excluded ->
                  (Message.created_at a <= Message.created_at b)%N)
  /\ (forall w authorization user,
         authenticated w authorization user ->
         history_fault w = None ->
         get_api_conversation_messages w authorization id (fresh st)
         = (Returned (mkResponse 200 (MessagesJson window)), fresh st))
  /\ (forall w authorization user req c resp s' m text,
         authenticated w authorization user ->
         truthy (conversation_id req) = true ->
         select_conversation (find_fault w) st
           (to_text (conversation_id req)) user = Data c ->
         Conversation.id c = id ->
         post_api_chat w authorization req (fresh st) = (Returned resp, s') ->
         In (GenerateContent m text) (log s') ->
         exists p, prompt req = JStr p /\ text = fullContext window p)
  /\ (forall w authorization user req c p,
         authenticated w authorization user ->
         prompt req = JStr p ->
         p <> [] ->
         truthy (conversation_id req) = true ->
         select_conversation (find_fault w) st
           (to_text (conversation_id req)) user = Data c ->
         Conversation.id c = id ->
         history_fault w = None ->
         fault (save_user w) = None ->
         ~ In (assigned_id (save_user w)) (map Message.id (messages st)) ->
         exists resp s',
           post_api_chat w authorization req (fresh st) = (Returned resp, s')
           /\ In (GenerateContent model (fullContext window p)) (log s')
           /\ (forall r,
                 completion w model (fullContext window p) = Data r ->
                 fault (save_assistant w) = None ->
                 ~ In (assigned_id (save_assistant w))
                      (assigned_id (save_user w) :: map Message.id (messages st)) ->
                 resp = mkResponse 200
                          (ChatJson r id
                             match model_name req with
                             | JUndefined => JStr (lit "gemini-2.0-flash-exp")
                             | v => v
                             end))).
Proof.
  intros Hlong window excluded.
  pose proof (order_by_created_at_length (messages_of st id)) as Hlen.
  pose proof (order_by_created_at_sorted (messages_of st id)) as Hsorted.
  assert (Hw : List.length window = 20).
  { unfold window. rewrite length_firstn. lia. }
  split; [exact Hw|]. split.
  { unfold excluded. intro Hnil.
    pose proof (firstn_skipn 20 (order_by_created_at (messages_of st id))) as Hs.
    rewrite Hnil, app_nil_r in Hs. fold window in Hs.
    rewrite <- Hs in Hlen. lia. }
  split.
  { unfold window, excluded. rewrite firstn_skipn.
    apply Permutation_sym, order_by_created_at_perm. }
  split; [now apply oldest_first_firstn|].
  split; [now apply oldest_first_split|].
  split.
  { intros w authorization user Hauth Hok.
    rewrite (get_messages_run id st Hauth). now rewrite Hok. }
  split.
  - intros w authorization user req c resp s' m text Hauth Hcid Hsel Hid Hrun Hin.
    unfold post_api_chat in Hrun.
    rewrite (verifyAuth_authenticated _ Hauth) in Hrun.
    destruct (@completion_call _ _ _ _ _ _ _ _ Hrun Hin)
      as (p & c' & s1 & history & Hp & Hc & Hh & _ & ->).
    apply getOrCreateConversation_returned in Hc. cbn [fresh db] in Hc.
    rewrite Hcid, Hsel in Hc.
    destruct Hc as [(_ & Hc & ->) | ([Habs | (e & Habs)] & _)]; try discriminate.
    injection Hc as <-. cbn [fresh db] in Hh.
    apply select_messages_data in Hh. rewrite Hid in Hh.
    exists p. split; [exact Hp|]. now rewrite Hh.
  - intros w authorization user req c p Hauth Hp Hne Hcid Hsel Hid Hh Hfu Hnu.
    unfold post_api_chat. rewrite (verifyAuth_authenticated _ Hauth).
    destruct (@chat_calls_completion w user req p c st Hp Hne Hcid Hsel Hh Hfu Hnu)
      as (resp & s' & Hrun & Hcall).
    rewrite Hid in Hcall. fold window in Hcall.
    exists resp, s'. split; [exact Hrun|]. split; [exact Hcall|].
    intros r Hr Hfa Hna.
    assert (Hc : getOrCreateConversation w user (conversation_id req)
                   (substring 0 50 p ++ lit "...") (fresh st)
                 = (Returned c, fresh st))
      by now apply getOrCreateConversation_resolves.
    destruct (@chat_turn_completes w user req p c (fresh st) r st
                Hp Hne Hc Hh Hfu Hnu)
      as (s'' & Hok);
      [cbn [fresh db]; rewrite Hid; exact Hr | exact Hfa | exact Hna |].
    rewrite Hok in Hrun. injection Hrun as <- _. now rewrite Hid.
Qed.

Lemma history_is_the_twenty_oldest_witness :
  20 < List.length (messages_of long_conversation (lit "c1"))
  /\ List.length
       (firstn 20 (order_by_created_at (messages_of long_conversation (lit "c1"))))
     = 20
  /\ skipn 20 (order_by_created_at (messages_of long_conversation (lit "c1")))
     <> []
  /\ get_api_conversation_messages (calm_world (lit "ok"))
       (bearer (lit "token-a")) (lit "c1") (fresh long_conversation)
     = (Returned
          (mkResponse 200
             (MessagesJson
                (firstn 20
                   (order_by_created_at
                      (messages_of long_conversation (lit "c1")))))),
        fresh long_conversation)
  /\ exists s',
      post_api_chat (calm_world (lit "ok")) (bearer (lit "token-a"))
        (mkChatRequest (JStr (lit "again")) (JStr (lit "c1")) JUndefined)
        (fresh long_conversation)
      = (Returned (mkResponse 200
                     (ChatJson (lit "ok") (lit "c1")
                               (JStr (lit "gemini-2.0-flash-exp")))),
         s')
      /\ In (GenerateContent model
               (fullContext
                  (firstn 20
                     (order_by_created_at
                        (messages_of long_conversation (lit "c1"))))
                  (lit "again")))
            (log s').
Proof.
  assert (H : 20 < List.length (messages_of long_conversation (lit "c1")))
    by (vm_compute; lia).
  assert (Ha : authenticated (calm_world (lit "ok")) (bearer (lit "token-a")) alice)
    by (exists (lit "token-a"); split; reflexivity).
  split; [exact H|].
  destruct (@history_is_the_twenty_oldest long_conversation (lit "c1") H)
    as (Hw & Hex & _ & _ & _ & Hroute & _ & Hturn).
  split; [exact Hw|]. split; [exact Hex|].
  split; [exact (Hroute _ _ _ Ha eq_refl)|].
  destruct (Hturn (calm_world (lit "ok")) (bearer (lit "token-a")) alice
              (mkChatRequest (JStr (lit "again")) (JStr (lit "c1")) JUndefined)
              (Conversation.mk (lit "c1") alice (lit "turn") 0%N 0%N)
              (lit "again") Ha eq_refl ltac:(discriminate) eq_refl eq_refl
              eq_refl eq_refl eq_refl
              ltac:(vm_compute; intuition discriminate))
    as (resp & s' & Hrun & Hcall & Hdone).
  exists s'. split; [|exact Hcall].
  rewrite Hrun. f_equal. f_equal.
  apply (Hdone (lit "ok") eq_refl eq_refl).
  vm_compute. intuition discriminate.
Defined.
